(** * Straight-line zags: the squircle ring pattern of [straight_line_zags.py]

    A shallow embedding of the geometry code ([circle], [squircle]), of the
    offset schedule and ring loop of [AppWindow.redraw], of the control
    panel that feeds them and of the color strings ([to_gradient],
    [from_gradient]), followed by the properties of the pattern.

    Numbers: Python [int] is [Z]; Python and NumPy floats are modelled by the
    exact reals [R], so every statement below is a statement about the
    program run over exact real arithmetic.  Exceptions are values of [exn]
    carried by [result]; mutation of the axes is a state monad whose state
    survives an exception, as a Python object does. *)

From Stdlib Require Import Reals ZArith List Lia Lra Bool.
From Stdlib Require Import Ascii Sorting.Sorted Sorting.Permutation.
Import ListNotations.

Local Open Scope Z_scope.
Local Open Scope R_scope.

(** ** Exceptions and fallible computations *)

Inductive exn : Type :=
| ZeroDivisionError
| IndexError
| ValueError.

Inductive result (A : Type) : Type :=
| Ok (a : A)
| Raise (e : exn).

Arguments Ok {A} a.
Arguments Raise {A} e.

Definition rbind {A B : Type} (c : result A) (k : A -> result B) : result B :=
  match c with
  | Ok a => k a
  | Raise e => Raise e
  end.

Declare Scope result_scope.
Delimit Scope result_scope with result.
Notation "x <- c ;; k" := (rbind c (fun x => k))
  (at level 61, c at next level, right associativity) : result_scope.

Definition succeeds {A : Type} (c : result A) : Prop := exists a, c = Ok a.

(** ** Python built-ins used by the script *)

Module Py.

(** [a % b] on integers: floor modulus, [ZeroDivisionError] when [b = 0]. *)
Definition mod_int (a b : Z) : result Z :=
  if (b =? 0)%Z then Raise ZeroDivisionError else Ok (a mod b)%Z.

(** [a % b] on floats with [b <> 0]: [a - b * floor (a / b)]. *)
Definition mod_float (a b : R) : R := a - b * IZR (Int_part (a / b)).

(** [range(n)]. *)
Definition range (n : Z) : list Z := map Z.of_nat (seq 0 (Z.to_nat n)).

(** A slice bound is an integer or absent ([None]). *)
Definition clip (len i : Z) : Z :=
  if (i <? 0)%Z then Z.max (i + len) 0 else Z.min i len.

(** Start position and number of elements of [a[lo:hi]] in a sequence of
    length [len]. *)
Definition slice_bounds (len : nat) (lo hi : option Z) : nat * nat :=
  let n := Z.of_nat len in
  let s := match lo with Some i => clip n i | None => 0%Z end in
  let e := match hi with Some i => clip n i | None => n end in
  (Z.to_nat s, Z.to_nat (e - s)).

(** [a[lo:hi]]. *)
Definition slice {A : Type} (a : list A) (lo hi : option Z) : list A :=
  let '(s, n) := slice_bounds (length a) lo hi in
  firstn n (skipn s a).

(** [a[i]] on a list or a one-dimensional array: negative indices count
    from the end, an index out of range raises [IndexError]. *)
Definition getitem {A : Type} (a : list A) (i : Z) : result A :=
  let n := Z.of_nat (length a) in
  let j := if (i <? 0)%Z then (i + n)%Z else i in
  if (j <? 0)%Z then Raise IndexError
  else match nth_error a (Z.to_nat j) with
       | Some v => Ok v
       | None => Raise IndexError
       end.

End Py.

(** ** NumPy functions used by the script, on one-dimensional arrays *)

Module Np.

(** [np.zeros((n,))]: a negative dimension raises [ValueError]. *)
Definition zeros (n : Z) : result (list R) :=
  if (n <? 0)%Z then Raise ValueError else Ok (repeat 0 (Z.to_nat n)).

(** Overwrite the last element, [y[-1] = v]. *)
Definition set_last (y : list R) (v : R) : list R := removelast y ++ [v].

(** [np.linspace(start, stop, num)] with the default [endpoint=True]:
    [arange(0, num) * step + start] with [step = (stop - start) / (num - 1)],
    the last sample overwritten by [stop] when [num > 1].  A zero step takes
    NumPy's other order of operations; a negative [num] raises. *)
Definition linspace (start stop : R) (num : Z) : result (list R) :=
  if (num <? 0)%Z then Raise ValueError
  else
    let div := (num - 1)%Z in
    let delta := stop - start in
    let y := map INR (seq 0 (Z.to_nat num)) in
    let y :=
      if (0 <? div)%Z then
        let step := delta / IZR div in
        if Req_dec_T step 0
        then map (fun v => v / IZR div * delta) y
        else map (fun v => v * step) y
      else map (fun v => v * delta) y in
    let y := map (fun v => v + start) y in
    Ok (if (1 <? num)%Z then set_last y stop else y).

(** [a[lo:hi] = src]: the source is broadcast to the shape of the target
    slice, so its length is that of the slice or 1; otherwise [ValueError]. *)
Definition setslice (a : list R) (lo hi : option Z) (src : list R)
  : result (list R) :=
  let '(s, n) := Py.slice_bounds (length a) lo hi in
  if (length src =? n)%nat then Ok (firstn s a ++ src ++ skipn (s + n) a)
  else match src with
       | [v] => Ok (firstn s a ++ repeat v n ++ skipn (s + n) a)
       | _ => Raise ValueError
       end.

End Np.

(** ** Geometry: [circle] and [squircle] *)

(** [sqrt] is total here (0 on a negative argument) where [np.sqrt] yields
    nan; over the reals the argument below is never negative, see
    [circle_radicand_nonneg]. *)
Definition circle (radius angle : R) : R * R :=
  let angle := Py.mod_float angle (2 * PI) in
  if Rlt_dec angle PI then
    let x := cos angle * radius in
    let y := sqrt (radius ^ 2 - x ^ 2) in
    (x, y)
  else
    let x := cos angle * radius in
    let y := - sqrt (radius ^ 2 - x ^ 2) in
    (x, y).

(** The body of the [for idx, angle in enumerate(...)] loop of [squircle]:
    [angles] is what is left of the sequence, [idx] the index of its head,
    [x] and [y] the lists built so far. *)
Fixpoint squircle_loop (radius width : R) (segments : Z)
    (idx : Z) (angles : list R) (x y : list R) : list R * list R :=
  match angles with
  | [] => (x, y)
  | angle :: rest =>
      if (idx >=? segments)%Z then (x, y)
      else
        let '(tx, ty) :=
          if (idx mod 2 =? 0)%Z
          then circle (radius - width / 2) angle
          else circle (radius + width / 2) angle in
        squircle_loop radius width segments (idx + 1) rest
                      (x ++ [tx]) (y ++ [ty])
  end.

Definition squircle (radius width angle_offset : R) (segments : Z)
  : result (list R * list R) :=
  (angles <- Np.linspace angle_offset (2 * PI + angle_offset) (segments + 1) ;;
   let '(x, y) := squircle_loop radius width segments 0 angles [] [] in
   x0 <- Py.getitem x 0 ;;
   let x := x ++ [x0] in
   y0 <- Py.getitem y 0 ;;
   let y := y ++ [y0] in
   Ok (x, y))%result.

(** ** Qt spin boxes

    Only what [ControlPanel] uses: the range, and the value kept inside it.
    [QDoubleSpinBox] also rounds its value and its range to its number of
    decimals; the model keeps every real of the range, a superset of the
    values the widget can hold.  So bounds proved of the model hold of the
    widget, while the exact real a double spin box holds after [setValue] is
    not claimed anywhere below. *)

Module Qt.

Record QSpinBox : Type := mkSpin
  { minimum : Z; maximum : Z; value : Z }.

(** [QSpinBox()]: range 0..99, value 0. *)
Definition newSpinBox : QSpinBox := mkSpin 0 99 0.

Definition bound (lo v hi : Z) : Z := Z.max lo (Z.min hi v).

Definition setMinimum (m : Z) (w : QSpinBox) : QSpinBox :=
  let hi := Z.max m (maximum w) in
  mkSpin m hi (bound m (value w) hi).

Definition setValue (v : Z) (w : QSpinBox) : QSpinBox :=
  mkSpin (minimum w) (maximum w) (bound (minimum w) v (maximum w)).

Record QDoubleSpinBox : Type := mkDSpin
  { dminimum : R; dmaximum : R; dvalue : R }.

(** [QDoubleSpinBox()]: range 0..99.99, value 0. *)
Definition newDoubleSpinBox : QDoubleSpinBox := mkDSpin 0 (9999 / 100) 0.

Definition dbound (lo v hi : R) : R := Rmax lo (Rmin hi v).

Definition setRangeD (lo hi : R) (w : QDoubleSpinBox) : QDoubleSpinBox :=
  let hi := Rmax lo hi in
  mkDSpin lo hi (dbound lo (dvalue w) hi).

Definition setMinimumD (m : R) (w : QDoubleSpinBox) : QDoubleSpinBox :=
  setRangeD m (Rmax m (dmaximum w)) w.

Definition setValueD (v : R) (w : QDoubleSpinBox) : QDoubleSpinBox :=
  mkDSpin (dminimum w) (dmaximum w) (dbound (dminimum w) v (dmaximum w)).

End Qt.

(** ** The control panel *)

(** The dictionary of the six values, keyed as in the script. *)
Record Vals : Type := mkVals
  { num_bumps : Z;
    num_rings : Z;
    rot_rings : Z;
    rot_offset : R;
    rad_offset : R;
    bump_size : R }.

Record ControlPanel : Type := mkControlPanel
  { _vals : Vals;
    _num_bumps : Qt.QSpinBox;
    _num_rings : Qt.QSpinBox;
    _rot_rings : Qt.QSpinBox;
    _rot_offset : Qt.QDoubleSpinBox;
    _rad_offset : Qt.QDoubleSpinBox;
    _bump_size : Qt.QDoubleSpinBox }.

(** [ControlPanel.__init__]: the dictionary is stored as given, each widget
    gets its minimum and then its value; [valueChanged] is connected only
    afterwards, so no [update] runs here. *)
Definition ControlPanel_init (vals : Vals) : ControlPanel :=
  {| _vals := vals;
     _num_bumps :=
       Qt.setValue (num_bumps vals) (Qt.setMinimum 2 Qt.newSpinBox);
     _num_rings :=
       Qt.setValue (num_rings vals) (Qt.setMinimum 1 Qt.newSpinBox);
     _rot_rings :=
       Qt.setValue (rot_rings vals) (Qt.setMinimum 2 Qt.newSpinBox);
     _rot_offset :=
       Qt.setValueD (rot_offset vals)
         (Qt.setRangeD 0 (2 * PI) Qt.newDoubleSpinBox);
     _rad_offset :=
       Qt.setValueD (rad_offset vals)
         (Qt.setMinimumD (1 / 100) Qt.newDoubleSpinBox);
     _bump_size :=
       Qt.setValueD (bump_size vals)
         (Qt.setMinimumD (1 / 100) Qt.newDoubleSpinBox) |}.

Definition get_values (self : ControlPanel) : Vals := _vals self.

(** [ControlPanel.update], without the signal it emits. *)
Definition update (self : ControlPanel) : ControlPanel :=
  {| _vals :=
       {| num_bumps := Qt.value (_num_bumps self);
          num_rings := Qt.value (_num_rings self);
          rot_rings := Qt.value (_rot_rings self);
          rot_offset := Qt.dvalue (_rot_offset self);
          rad_offset := Qt.dvalue (_rad_offset self);
          bump_size := Qt.dvalue (_bump_size self) |};
     _num_bumps := _num_bumps self;
     _num_rings := _num_rings self;
     _rot_rings := _rot_rings self;
     _rot_offset := _rot_offset self;
     _rad_offset := _rad_offset self;
     _bump_size := _bump_size self |}.

(** The values [AppWindow.__init__] starts the panel with. *)
Definition initial_vals : Vals :=
  {| num_bumps := 20;
     num_rings := 40;
     rot_rings := 10;
     rot_offset := 1 / 10;
     rad_offset := 5 / 100;
     bump_size := 1 / 10 |}.

(** ** The offset schedule of [redraw] *)

(** The three statements that build [offsets], as a function of the doubled
    [rot_rings] and of [rot_offset]. *)
Definition offsets_schedule (rot_rings : Z) (rot_offset : R)
  : result (list R) :=
  (offsets <- Np.zeros (rot_rings - 2) ;;
   up <- Np.linspace 0 rot_offset (rot_rings / 2) ;;
   offsets <- Np.setslice offsets (Some 0%Z) (Some (rot_rings / 2)%Z) up ;;
   down <- Np.linspace rot_offset 0 (rot_rings / 2) ;;
   offsets <- Np.setslice offsets (Some (rot_rings / 2)%Z) None
                (Py.slice down (Some 1%Z) (Some (-1)%Z)) ;;
   Ok offsets)%result.

(** ** The application window and [redraw] *)

Section App.

(** Colors, the state of the gradient editor, and the colormap built from
    it ([from_gradient], [sorted] and [LinearSegmentedColormap.from_list]),
    which may reject a gradient. *)
Variable Color : Type.
Variable Gradient : Type.
Variable from_list : Gradient -> result (R -> Color).

(** One plotted line: its x data, its y data and its color. *)
Definition Line : Type := (list R * list R) * Color.

Record AppWindow : Type := mkApp
  { _controls : ControlPanel;
    _gradient : Gradient;
    ax : list Line }.

(** Computations on the window: they may raise, and what they did to the
    window before raising stays done. *)
Definition M (A : Type) : Type := AppWindow -> result A * AppWindow.

Definition ret {A : Type} (a : A) : M A := fun s => (Ok a, s).

Definition bind {A B : Type} (c : M A) (k : A -> M B) : M B :=
  fun s =>
    match c s with
    | (Ok a, s') => k a s'
    | (Raise e, s') => (Raise e, s')
    end.

Definition lift {A : Type} (c : result A) : M A := fun s => (c, s).

Definition get {A : Type} (f : AppWindow -> A) : M A := fun s => (Ok (f s), s).

(** [self.ax.clear()]. *)
Definition ax_clear : M unit :=
  fun s => (Ok tt, mkApp (_controls s) (_gradient s) []).

(** [self.ax.plot(x, y, color=c)]. *)
Definition ax_plot (xy : list R * list R) (c : Color) : M unit :=
  fun s => (Ok tt, mkApp (_controls s) (_gradient s) (ax s ++ [(xy, c)])).

Fixpoint for_each {A : Type} (l : list A) (body : A -> M unit) : M unit :=
  match l with
  | [] => ret tt
  | a :: l' => bind (body a) (fun _ => for_each l' body)
  end.

(** The arguments of one [self.ax.plot] call, evaluated in Python's order:
    radius, width, the offset (modulus, then indexing), the call of
    [squircle], then the color. *)
Definition ring (num_bumps num_rings rot_rings : Z)
    (rad_offset bump_size : R) (offsets : list R) (cmap : R -> Color)
    (bidx : Z) : result Line :=
  (let radius := 1 + rad_offset * IZR bidx in
   let width := bump_size in
   i <- Py.mod_int bidx (rot_rings - 2) ;;
   angle_offset <- Py.getitem offsets i ;;
   xy <- squircle radius width angle_offset num_bumps ;;
   Ok (xy, cmap (IZR bidx / IZR num_rings)))%result.

(** [redraw] from the computation of [offsets] on, as a function of the
    doubled [num_bumps] and [rot_rings]. *)
Definition pattern (num_bumps num_rings rot_rings : Z)
    (rot_offset rad_offset bump_size : R) (cmap : R -> Color) : M unit :=
  bind (lift (offsets_schedule rot_rings rot_offset)) (fun offsets =>
  bind ax_clear (fun _ =>
  for_each (Py.range num_rings) (fun bidx =>
    bind (lift (ring num_bumps num_rings rot_rings rad_offset bump_size
                     offsets cmap bidx))
         (fun l => ax_plot (fst l) (snd l))))).

Definition redraw : M unit :=
  bind (get (fun self => get_values (_controls self))) (fun vals =>
  bind (get _gradient) (fun gradient =>
  bind (lift (from_list gradient)) (fun cmap =>
  pattern (num_bumps vals * 2) (num_rings vals) (rot_rings vals * 2)
          (rot_offset vals) (rad_offset vals) (bump_size vals) cmap))).

(** *** What the user can do *)

Inductive event : Type :=
| EditNumBumps (v : Z)
| EditNumRings (v : Z)
| EditRotRings (v : Z)
| EditRotOffset (v : R)
| EditRadOffset (v : R)
| EditBumpSize (v : R)
| EditGradient (g : Gradient)
| ClickSave.

Definition with_controls (c : ControlPanel) (s : AppWindow) : AppWindow :=
  mkApp c (_gradient s) (ax s).

(** An edit of a spin box: the widget bounds the value and, when the value
    changed, [valueChanged] runs [update], whose [numbersChanged] runs
    [redraw]. *)
Definition edit_spin (w : ControlPanel -> Qt.QSpinBox)
    (store : Qt.QSpinBox -> ControlPanel -> ControlPanel) (v : Z) : M unit :=
  fun s =>
    let c := _controls s in
    let w' := Qt.setValue v (w c) in
    if (Qt.value w' =? Qt.value (w c))%Z then (Ok tt, with_controls (store w' c) s)
    else redraw (with_controls (update (store w' c)) s).

Definition edit_dspin (w : ControlPanel -> Qt.QDoubleSpinBox)
    (store : Qt.QDoubleSpinBox -> ControlPanel -> ControlPanel) (v : R)
  : M unit :=
  fun s =>
    let c := _controls s in
    let w' := Qt.setValueD v (w c) in
    if Req_dec_T (Qt.dvalue w') (Qt.dvalue (w c))
    then (Ok tt, with_controls (store w' c) s)
    else redraw (with_controls (update (store w' c)) s).

Definition store_num_bumps (w : Qt.QSpinBox) (c : ControlPanel) :=
  mkControlPanel (_vals c) w (_num_rings c) (_rot_rings c)
                 (_rot_offset c) (_rad_offset c) (_bump_size c).
Definition store_num_rings (w : Qt.QSpinBox) (c : ControlPanel) :=
  mkControlPanel (_vals c) (_num_bumps c) w (_rot_rings c)
                 (_rot_offset c) (_rad_offset c) (_bump_size c).
Definition store_rot_rings (w : Qt.QSpinBox) (c : ControlPanel) :=
  mkControlPanel (_vals c) (_num_bumps c) (_num_rings c) w
                 (_rot_offset c) (_rad_offset c) (_bump_size c).
Definition store_rot_offset (w : Qt.QDoubleSpinBox) (c : ControlPanel) :=
  mkControlPanel (_vals c) (_num_bumps c) (_num_rings c) (_rot_rings c)
                 w (_rad_offset c) (_bump_size c).
Definition store_rad_offset (w : Qt.QDoubleSpinBox) (c : ControlPanel) :=
  mkControlPanel (_vals c) (_num_bumps c) (_num_rings c) (_rot_rings c)
                 (_rot_offset c) w (_bump_size c).
Definition store_bump_size (w : Qt.QDoubleSpinBox) (c : ControlPanel) :=
  mkControlPanel (_vals c) (_num_bumps c) (_num_rings c) (_rot_rings c)
                 (_rot_offset c) (_rad_offset c) w.

Definition handle (e : event) : M unit :=
  match e with
  | EditNumBumps v => edit_spin _num_bumps store_num_bumps v
  | EditNumRings v => edit_spin _num_rings store_num_rings v
  | EditRotRings v => edit_spin _rot_rings store_rot_rings v
  | EditRotOffset v => edit_dspin _rot_offset store_rot_offset v
  | EditRadOffset v => edit_dspin _rad_offset store_rad_offset v
  | EditBumpSize v => edit_dspin _bump_size store_bump_size v
  | EditGradient g =>
      fun s => redraw (mkApp (_controls s) g (ax s))
  | ClickSave => ret tt
  end.

(** [AppWindow.__init__]: a fresh figure, the panel started with
    [initial_vals], the gradient editor in its first state [g0], then one
    [redraw]. *)
Definition AppWindow_init (g0 : Gradient) : result unit * AppWindow :=
  redraw (mkApp (ControlPanel_init initial_vals) g0 []).

(** The windows the running application can be in. *)
Inductive reachable : AppWindow -> Prop :=
| reach_init (g0 : Gradient) :
    reachable (snd (AppWindow_init g0))
| reach_event (e : event) (s : AppWindow) :
    reachable s -> reachable (snd (handle e s)).

End App.

Arguments mkApp {Color Gradient}.
Arguments _controls {Color Gradient}.
Arguments _gradient {Color Gradient}.
Arguments ax {Color Gradient}.
Arguments ret {Color Gradient A}.
Arguments bind {Color Gradient A B}.
Arguments lift {Color Gradient A}.
Arguments ring {Color}.
Arguments pattern {Color Gradient}.
Arguments redraw {Color Gradient}.
Arguments handle {Color Gradient}.
Arguments reachable {Color Gradient}.
Arguments AppWindow_init {Color Gradient}.

(** ** The direct definition of a circle point

    The spec's second reading of the circle point sampler, to be compared
    with [circle]. *)
Definition circle_spec (radius angle : R) : R * R :=
  (radius * cos angle, radius * sin angle).

(** ** Reading a polyline

    The point of index [k] of a pair of coordinate lists. *)
Definition vertex (xy : list R * list R) (k : nat) : option (R * R) :=
  match nth_error (fst xy) k, nth_error (snd xy) k with
  | Some a, Some b => Some (a, b)
  | _, _ => None
  end.

(** The radius [squircle] uses at index [k]: inner when [k] is even. *)
Definition bump_radius (radius width : R) (k : nat) : R :=
  if Nat.even k then radius - width / 2 else radius + width / 2.

(** The points the loop of [squircle] adds for the angles [angles], the
    first of which has index [idx], when it runs to the end of [angles]. *)
Fixpoint loop_points (radius width : R) (idx : Z) (angles : list R)
  : list (R * R) :=
  match angles with
  | [] => []
  | angle :: rest =>
      (if (idx mod 2 =? 0)%Z
       then circle (radius - width / 2) angle
       else circle (radius + width / 2) angle)
      :: loop_points radius width (idx + 1) rest
  end.

(** The angle of index [k] that [linspace] hands to [squircle]. *)
Definition ring_angle (angle_offset : R) (segments : Z) (k : nat) : R :=
  INR k * ((2 * PI + angle_offset - angle_offset) / IZR segments)
  + angle_offset.

(** The [segments] points [squircle] computes before it closes the ring. *)
Definition ring_points (radius width angle_offset : R) (segments : Z)
  : list (R * R) :=
  map (fun k => circle (bump_radius radius width k)
                       (ring_angle angle_offset segments k))
      (seq 0 (Z.to_nat segments)).

(** Sample [k] of [n] equally spaced samples from [a] to [b], both ends
    included: what "ramps linearly from [a] to [b]" means below. *)
Definition ramp (a b : R) (n k : nat) : R :=
  a + INR k * ((b - a) / INR (n - 1)).

(** The line [redraw] plots for ring [i] when nothing raises: the ring
    points for the scheduled offset, closed, with the color of the ring. *)
Definition ring_line {Color : Type} (num_bumps num_rings : Z)
    (rad_offset bump_size : R) (offsets : list R) (cmap : R -> Color)
    (i : nat) : (list R * list R) * Color :=
  let offset := nth (i mod length offsets) offsets 0 in
  let pts := ring_points (1 + rad_offset * INR i) bump_size offset num_bumps in
  ((map fst (pts ++ firstn 1 pts), map snd (pts ++ firstn 1 pts)),
   cmap (INR i / IZR num_rings)).

(** The body of the ring loop of [pattern], for a given way [f] of computing
    the line of a ring. *)
Definition plot_body {Color Gradient : Type} (f : Z -> result (Line Color))
    (bidx : Z) : M Color Gradient unit :=
  bind (lift (f bidx)) (fun l => ax_plot Color Gradient (fst l) (snd l)).

(** The exceptions the geometry raises on numbers it cannot handle. *)
Definition numeric_exception (e : exn) : Prop :=
  e = ZeroDivisionError \/ e = IndexError.

(** A computation that is stopped by an exception other than those. *)
Definition rejected {A : Type} (r : result A) : Prop :=
  exists e, r = Raise e /\ ~ numeric_exception e.

(** What the widgets guarantee about the panel: each integer spin box has
    its minimum and holds a value not below it, and so do the stored
    values. *)
Definition panel_ok (c : ControlPanel) : Prop :=
  (2 <= Qt.minimum (_num_bumps c) <= Qt.value (_num_bumps c))%Z /\
  (1 <= Qt.minimum (_num_rings c) <= Qt.value (_num_rings c))%Z /\
  (2 <= Qt.minimum (_rot_rings c) <= Qt.value (_rot_rings c))%Z /\
  (2 <= num_bumps (_vals c))%Z /\
  (1 <= num_rings (_vals c))%Z /\
  (2 <= rot_rings (_vals c))%Z.

(** The six values lie in the ranges the widgets are given. *)
Definition vals_in_range (v : Vals) : Prop :=
  (2 <= num_bumps v <= 99)%Z /\
  (1 <= num_rings v <= 99)%Z /\
  (2 <= rot_rings v <= 99)%Z /\
  0 <= rot_offset v <= 2 * PI /\
  1 / 100 <= rad_offset v <= 9999 / 100 /\
  1 / 100 <= bump_size v <= 9999 / 100.

(** The values the widgets show. *)
Definition shown (c : ControlPanel) : Vals :=
  {| num_bumps := Qt.value (_num_bumps c);
     num_rings := Qt.value (_num_rings c);
     rot_rings := Qt.value (_rot_rings c);
     rot_offset := Qt.dvalue (_rot_offset c);
     rad_offset := Qt.dvalue (_rad_offset c);
     bump_size := Qt.dvalue (_bump_size c) |}.

(** The widgets have the ranges [ControlPanel.__init__] gives them, and the
    stored dictionary is what they show. *)
Definition panel_synced (c : ControlPanel) : Prop :=
  (Qt.minimum (_num_bumps c) = 2 /\ Qt.maximum (_num_bumps c) = 99)%Z /\
  (Qt.minimum (_num_rings c) = 1 /\ Qt.maximum (_num_rings c) = 99)%Z /\
  (Qt.minimum (_rot_rings c) = 2 /\ Qt.maximum (_rot_rings c) = 99)%Z /\
  (Qt.dminimum (_rot_offset c) = 0 /\ Qt.dmaximum (_rot_offset c) = 2 * PI) /\
  (Qt.dminimum (_rad_offset c) = 1 / 100 /\
   Qt.dmaximum (_rad_offset c) = 9999 / 100) /\
  (Qt.dminimum (_bump_size c) = 1 / 100 /\
   Qt.dmaximum (_bump_size c) = 9999 / 100) /\
  _vals c = shown c /\
  vals_in_range (_vals c).

(** ** Colors as strings: [to_gradient] and [from_gradient]

    Strings are lists of characters.  [int(x)] on a float truncates toward
    zero. *)

Definition int_of_float (x : R) : Z :=
  if Rle_dec 0 x then Int_part x else (- Int_part (- x))%Z.

(** What can stop the two functions: a Python exception, or an exception of
    the PyQt binding when an integer does not fit the C type of a
    parameter. *)
Inductive raised : Type :=
| Builtin (e : exn)
| Binding.

Definition outcome (A : Type) : Type := (raised + A)%type.

Module Hex.

(** The digit of [format(n, 'X')] for a value below 16. *)
Definition digit (d : Z) : ascii :=
  nth (Z.to_nat d)
      ["0"; "1"; "2"; "3"; "4"; "5"; "6"; "7";
       "8"; "9"; "A"; "B"; "C"; "D"; "E"; "F"]%char "0"%char.

(** The value of a digit in base 16, either case, as [int(s, 16)] reads
    it. *)
Definition value (c : ascii) : option Z :=
  let k := Z.of_nat (nat_of_ascii c) in
  if ((48 <=? k) && (k <=? 57))%Z then Some (k - 48)%Z
  else if ((65 <=? k) && (k <=? 70))%Z then Some (k - 55)%Z
  else if ((97 <=? k) && (k <=? 102))%Z then Some (k - 87)%Z
  else None.

(** The digits of a number that is not negative, most significant first,
    without leading zeros; [fuel] bounds their number. *)
Fixpoint digits (fuel : nat) (n : Z) : list ascii :=
  match fuel with
  | O => []
  | S fuel' =>
      if (n <? 16)%Z then [digit n]
      else digits fuel' (n / 16) ++ [digit (n mod 16)]
  end.

(** [format(n, 'X')] for [n >= 0]. *)
Definition format_X (n : Z) : list ascii :=
  digits (S (Z.to_nat (Z.log2 n))) n.

Definition zero_pad (width : nat) (ds : list ascii) : list ascii :=
  repeat "0"%char (width - length ds) ++ ds.

(** [format(n, '08X')]: zeros between the sign and the digits up to a
    width of 8. *)
Definition format_08X (n : Z) : list ascii :=
  if (n <? 0)%Z then "-"%char :: zero_pad 7 (format_X (- n))
  else zero_pad 8 (format_X n).

(** Reading a run of digits from the left, [acc] being the value so far;
    [None] when a character is not a digit. *)
Fixpoint fold (acc : Z) (s : list ascii) : option Z :=
  match s with
  | [] => Some acc
  | c :: s' =>
      match value c with
      | Some d => fold (acc * 16 + d) s'
      | None => None
      end
  end.

(** Exactly [k] digits of [n], most significant first. *)
Fixpoint fixed (k : nat) (n : Z) : list ascii :=
  match k with
  | O => []
  | S k' => fixed k' (n / 16) ++ [digit (n mod 16)]
  end.

End Hex.

Section ColorCode.

(** The corners of the libraries that are left open: what [QColor(r, g,
    b).rgb()] and [QColor.fromRgb(n)] do when an argument does not fit the C
    type ([int], [unsigned int]), and what [int(s, 16)] does on a string
    that is not a plain run of digits (it accepts a sign, a [0x] prefix,
    underscores and white space, and raises [ValueError] otherwise). *)
Variable QColor_rgb_big : Z -> Z -> Z -> outcome Z.
Variable fromRgb_big : Z -> outcome (Z * Z * Z).
Variable int16_other : list ascii -> result Z.

Definition c_int (z : Z) : bool :=
  ((-2147483648 <=? z) && (z <=? 2147483647))%Z.

Definition channel (z : Z) : bool := ((0 <=? z) && (z <=? 255))%Z.

(** [QColor(r, g, b).rgb()]: the color is invalid, with RGB value 0, when a
    channel is outside 0..255; [rgb()] is opaque. *)
Definition QColor_rgb (r g b : Z) : outcome Z :=
  if c_int r && c_int g && c_int b then
    if channel r && channel g && channel b
    then inr (4278190080 + r * 65536 + g * 256 + b)%Z
    else inr 4278190080%Z
  else QColor_rgb_big r g b.

Definition to_gradient (red green blue : R) : outcome (list ascii) :=
  match QColor_rgb (int_of_float (red * 255)) (int_of_float (green * 255))
                   (int_of_float (blue * 255)) with
  | inr rgb => inr ("#"%char :: Hex.format_08X rgb)
  | inl e => inl e
  end.

(** [int(s, 16)]. *)
Definition int16 (s : list ascii) : result Z :=
  match s with
  | [] => Raise ValueError
  | _ :: _ =>
      match Hex.fold 0 s with
      | Some n => Ok n
      | None => int16_other s
      end
  end.

(** [QColor.fromRgb(n)] followed by [red()], [green()], [blue()]: the alpha
    byte is ignored. *)
Definition QColor_fromRgb (n : Z) : outcome (Z * Z * Z) :=
  if ((0 <=? n) && (n <? 4294967296))%Z
  then inr ((n / 65536) mod 256, (n / 256) mod 256, n mod 256)%Z
  else fromRgb_big n.

Definition from_gradient (color : list ascii) : outcome (R * R * R * Z) :=
  match int16 (tl color) with
  | Raise e => inl (Builtin e)
  | Ok n =>
      match QColor_fromRgb n with
      | inl e => inl e
      | inr (r, g, b) => inr (IZR r / 255, IZR g / 255, IZR b / 255, 1%Z)
      end
  end.

(** The loop of [AppWindow.__init__] over the zipped segment data of the
    three channels; a row is [(x, y0, y1)]. *)
Fixpoint gradient_colors (red green blue : list (R * R * R))
  : outcome (list (R * list ascii)) :=
  match red, green, blue with
  | r :: red', g :: green', b :: blue' =>
      match to_gradient (snd (fst r)) (snd (fst g)) (snd (fst b)) with
      | inl e => inl e
      | inr c =>
          match gradient_colors red' green' blue' with
          | inl e => inl e
          | inr l => inr ((fst (fst r), c) :: l)
          end
      end
  | _, _, _ => inr []
  end.

(** The list comprehension of [redraw]. *)
Fixpoint decode_stops (gradient : list (R * list ascii))
  : outcome (list (R * (R * R * R * Z))) :=
  match gradient with
  | [] => inr []
  | (x, y) :: rest =>
      match from_gradient y with
      | inl e => inl e
      | inr c =>
          match decode_stops rest with
          | inl e => inl e
          | inr l => inr ((x, c) :: l)
          end
      end
  end.

End ColorCode.

(** [sorted(l, key=lambda x: x[0])]: the stable sort by position, written
    as insertion from the right, an element going before the first one
    whose position is not smaller. *)
Fixpoint insert_by_position {A : Type} (x : R * A) (l : list (R * A))
  : list (R * A) :=
  match l with
  | [] => [x]
  | y :: l' =>
      if Rlt_dec (fst y) (fst x) then y :: insert_by_position x l'
      else x :: y :: l'
  end.

Definition sorted_by_position {A : Type} (l : list (R * A)) : list (R * A) :=
  fold_right insert_by_position [] l.

(** What [redraw] hands to [LinearSegmentedColormap.from_list]. *)
Definition colormap_stops (fromRgb_big : Z -> outcome (Z * Z * Z))
    (int16_other : list ascii -> result Z)
    (gradient : list (R * list ascii))
  : outcome (list (R * (R * R * R * Z))) :=
  match decode_stops fromRgb_big int16_other gradient with
  | inl e => inl e
  | inr l => inr (sorted_by_position l)
  end.

(** A channel value rounded down to a multiple of 1/255. *)
Definition quantised (x : R) : R := IZR (Int_part (x * 255)) / 255.

(** Order of two stops by position. *)
Definition position_le {A : Type} (a b : R * A) : Prop := fst a <= fst b.
Definition position_lt {A : Type} (a b : R * A) : Prop := fst a < fst b.

(** One stop as the comprehension of [redraw] decodes it, when it does. *)
Definition decoded (fromRgb_big : Z -> outcome (Z * Z * Z))
    (int16_other : list ascii -> result Z) (stop : R * list ascii)
  : R * (R * R * R * Z) :=
  (fst stop,
   match from_gradient fromRgb_big int16_other (snd stop) with
   | inr c => c
   | inl _ => (0, 0, 0, 0%Z)
   end).

(** A stop whose string [from_gradient] accepts. *)
Definition decodes (fromRgb_big : Z -> outcome (Z * Z * Z))
    (int16_other : list ascii -> result Z) (stop : R * list ascii) : Prop :=
  exists c, from_gradient fromRgb_big int16_other (snd stop) = inr c.

(** * Properties *)

(** ** The circle point sampler *)

Section Circle.

Lemma cos_period_Z (x : R) (k : Z) : cos (x + 2 * IZR k * PI) = cos x.
Proof.
  destruct (Z_le_gt_dec 0 k) as [Hk | Hk].
  - rewrite <- (Z2Nat.id k Hk), <- INR_IZR_INZ. apply cos_period.
  - rewrite <- (cos_period (x + 2 * IZR k * PI) (Z.to_nat (- k))).
    rewrite INR_IZR_INZ, Z2Nat.id by lia.
    rewrite opp_IZR. f_equal. ring.
Qed.

Lemma sin_period_Z (x : R) (k : Z) : sin (x + 2 * IZR k * PI) = sin x.
Proof.
  destruct (Z_le_gt_dec 0 k) as [Hk | Hk].
  - rewrite <- (Z2Nat.id k Hk), <- INR_IZR_INZ. apply sin_period.
  - rewrite <- (sin_period (x + 2 * IZR k * PI) (Z.to_nat (- k))).
    rewrite INR_IZR_INZ, Z2Nat.id by lia.
    rewrite opp_IZR. f_equal. ring.
Qed.

(** The reduced angle lies in [[0, 2 * PI)]. *)
Lemma mod_float_range (a : R) :
  0 <= Py.mod_float a (2 * PI) < 2 * PI.
Proof.
  unfold Py.mod_float.
  pose proof PI_RGT_0 as Hpi.
  assert (Ha : a = 2 * PI * (a / (2 * PI))) by (field; lra).
  destruct (base_Int_part (a / (2 * PI))) as [Hlo Hhi].
  generalize dependent (a / (2 * PI)). intros q Ha Hlo Hhi.
  rewrite Ha. split; nra.
Qed.

Lemma mod_float_cos (a : R) : cos (Py.mod_float a (2 * PI)) = cos a.
Proof.
  unfold Py.mod_float.
  rewrite <- (cos_period_Z a (- Int_part (a / (2 * PI)))).
  rewrite opp_IZR. f_equal. ring.
Qed.

Lemma mod_float_sin (a : R) : sin (Py.mod_float a (2 * PI)) = sin a.
Proof.
  unfold Py.mod_float.
  rewrite <- (sin_period_Z a (- Int_part (a / (2 * PI)))).
  rewrite opp_IZR. f_equal. ring.
Qed.

(** The argument of the square root is never negative, so the root is the
    real one. *)
Lemma circle_radicand (radius t : R) :
  radius ^ 2 - (cos t * radius) ^ 2 = (radius * sin t) ^ 2.
Proof.
  pose proof (sin2_cos2 t) as H. unfold Rsqr in H. nra.
Qed.

Lemma circle_radicand_nonneg (radius t : R) :
  0 <= radius ^ 2 - (cos t * radius) ^ 2.
Proof. rewrite circle_radicand. apply pow2_ge_0. Qed.

End Circle.

(** On the upper half turn the sine is not negative and the root is
    [radius * sin]; on the lower half the root is its opposite. *)
Lemma circle_polar (radius angle : R) :
  0 <= radius ->
  circle radius angle = (radius * cos angle, radius * sin angle).
Proof.
  intros Hr. unfold circle.
  pose proof (mod_float_range angle) as [Hlo Hhi].
  pose proof (mod_float_cos angle) as Hc.
  pose proof (mod_float_sin angle) as Hs.
  set (t := Py.mod_float angle (2 * PI)) in *.
  cbv zeta. rewrite circle_radicand, Hc, Hs.
  destruct (Rlt_dec t PI) as [Hlt | Hge]; f_equal; try ring.
  - apply sqrt_pow2. rewrite <- Hs.
    apply Rmult_le_pos; [assumption | apply sin_ge_0; lra].
  - assert (Hneg : sin angle <= 0) by (rewrite <- Hs; apply sin_le_0; lra).
    replace ((radius * sin angle) ^ 2) with ((- (radius * sin angle)) ^ 2)
      by ring.
    rewrite sqrt_pow2 by nra. ring.
Qed.

(** C5. For a radius that is not negative and any angle, [circle] returns the
    point [(radius * cos angle, radius * sin angle)]: over the reals the
    square-root form of the code and the direct form of the spec agree. *)
Theorem circle_refines_spec (radius angle : R) :
  0 <= radius -> circle radius angle = circle_spec radius angle.
Proof.
  intros Hr. unfold circle_spec. apply circle_polar. exact Hr.
Qed.

Lemma circle_refines_spec_witness :
  0 <= 1 /\ circle 1 0 = circle_spec 1 0.
Proof.
  split; [lra | apply (circle_refines_spec 1 0); lra].
Defined.

(** ** NumPy's [linspace] *)

Section Linspace.

Variables start stop : R.

Lemma linspace_negative (num : Z) :
  (num < 0)%Z -> Np.linspace start stop num = Raise ValueError.
Proof.
  intros H. unfold Np.linspace.
  destruct (Z.ltb_spec num 0); [reflexivity | lia].
Qed.

Lemma linspace_0 : Np.linspace start stop 0 = Ok [].
Proof. reflexivity. Qed.

Lemma linspace_1 : Np.linspace start stop 1 = Ok [0 * (stop - start) + start].
Proof. reflexivity. Qed.

(** From two samples on: a ramp of [num - 1] computed samples, then [stop]
    itself. *)
Lemma linspace_ramp (num : Z) :
  (2 <= num)%Z ->
  Np.linspace start stop num =
  Ok (map (fun k => INR k * ((stop - start) / IZR (num - 1)) + start)
          (seq 0 (Z.to_nat (num - 1))) ++ [stop]).
Proof.
  intros H. unfold Np.linspace.
  destruct (Z.ltb_spec num 0); [lia |].
  destruct (Z.ltb_spec 0 (num - 1)); [| lia].
  destruct (Z.ltb_spec 1 num); [| lia].
  f_equal. unfold Np.set_last.
  replace (Z.to_nat num) with (S (Z.to_nat (num - 1))) by lia.
  rewrite seq_S, Nat.add_0_l.
  destruct (Req_dec_T ((stop - start) / IZR (num - 1)) 0);
    rewrite !map_app; cbn [map]; rewrite removelast_last;
    f_equal; rewrite !map_map; apply map_ext; intros k;
    unfold Rdiv; ring.
Qed.

Lemma linspace_length (num : Z) (l : list R) :
  Np.linspace start stop num = Ok l -> length l = Z.to_nat num.
Proof.
  unfold Np.linspace, Np.set_last.
  destruct (Z.ltb_spec num 0); [discriminate |].
  intros [= <-].
  assert (Hlen : forall f g : R -> R,
             length (map g (map f (map INR (seq 0 (Z.to_nat num)))))
             = Z.to_nat num)
    by (intros; rewrite !length_map, length_seq; reflexivity).
  assert (Hlast : forall y : list R, y <> [] ->
             length (removelast y ++ [stop]) = length y).
  { intros y Hy. destruct (exists_last Hy) as [y' [a ->]].
    rewrite removelast_last, !length_app. reflexivity. }
  assert (Hne : forall f g : R -> R, (1 < num)%Z ->
             map g (map f (map INR (seq 0 (Z.to_nat num)))) <> []).
  { intros f g Hn E. apply (f_equal (@length R)) in E.
    rewrite Hlen in E. cbn in E. lia. }
  destruct (Z.ltb_spec 0 (num - 1)); [destruct (Req_dec_T _ 0) |];
    destruct (Z.ltb_spec 1 num);
    rewrite ?Hlast by (apply Hne; assumption); apply Hlen.
Qed.

End Linspace.

(** ** The ring builder *)

Section Squircle.

Variables radius width : R.

Lemma even_of_nat (k : nat) : Z.even (Z.of_nat k) = Nat.even k.
Proof.
  induction k as [| k IH]; [reflexivity |].
  rewrite Nat2Z.inj_succ, Z.even_succ, Nat.even_succ.
  rewrite <- Z.negb_even, <- Nat.negb_even, IH. reflexivity.
Qed.

(** The loop stops at the end of the angles or at index [segments],
    whichever comes first. *)
Lemma squircle_loop_points (segments : Z) (angles : list R) :
  forall (idx : Z) (x y : list R),
    squircle_loop radius width segments idx angles x y =
    let pts := loop_points radius width idx
                 (firstn (Z.to_nat (segments - idx)) angles) in
    (x ++ map fst pts, y ++ map snd pts).
Proof.
  induction angles as [| angle rest IH]; intros idx x y; cbn [squircle_loop].
  - rewrite firstn_nil. cbn. rewrite !app_nil_r. reflexivity.
  - destruct (Z.geb_spec idx segments) as [Hge | Hlt].
    + replace (Z.to_nat (segments - idx)) with 0%nat by lia.
      cbn. rewrite !app_nil_r. reflexivity.
    + replace (Z.to_nat (segments - idx))
        with (S (Z.to_nat (segments - (idx + 1)))) by lia.
      cbn [firstn loop_points].
      destruct (if (idx mod 2 =? 0)%Z
                then circle (radius - width / 2) angle
                else circle (radius + width / 2) angle) as [tx ty].
      rewrite IH. cbn [map fst snd]. cbv zeta.
      rewrite <- !app_assoc. reflexivity.
Qed.

Lemma loop_points_ramp (f : nat -> R) (m : nat) :
  forall s : nat,
    loop_points radius width (Z.of_nat s) (map f (seq s m)) =
    map (fun k => circle (bump_radius radius width k) (f k)) (seq s m).
Proof.
  induction m as [| m IH]; intros s; [reflexivity |].
  cbn [seq map loop_points]. f_equal.
  - unfold bump_radius. rewrite <- Zeven_mod, even_of_nat.
    destruct (Nat.even s); reflexivity.
  - rewrite <- (IH (S s)). f_equal. lia.
Qed.

(** With at least one segment the result is the computed points followed
    by the first of them again. *)
Lemma squircle_closed (angle_offset : R) (segments : Z) :
  (1 <= segments)%Z ->
  let pts := ring_points radius width angle_offset segments in
  squircle radius width angle_offset segments =
  Ok (map fst (pts ++ firstn 1 pts), map snd (pts ++ firstn 1 pts)).
Proof.
  intros Hseg pts. unfold squircle.
  rewrite linspace_ramp by lia. cbn [rbind].
  rewrite squircle_loop_points. cbv zeta.
  replace (segments + 1 - 1)%Z with segments by lia.
  rewrite Z.sub_0_r, firstn_app, length_map, length_seq, Nat.sub_diag.
  cbn [firstn]. rewrite app_nil_r.
  rewrite firstn_all2 by (rewrite length_map, length_seq; lia).
  rewrite (loop_points_ramp _ (Z.to_nat segments) 0).
  fold (ring_angle angle_offset segments).
  change (map _ (seq 0 (Z.to_nat segments))) with pts.
  assert (Hpts : exists p rest, pts = p :: rest).
  { unfold pts, ring_points.
    destruct (Z.to_nat segments) as [| m] eqn:E; [lia |].
    cbn [seq map]. eauto. }
  destruct Hpts as [p [rest ->]].
  cbn. rewrite !map_app. reflexivity.
Qed.

Lemma ring_points_length (angle_offset : R) (segments : Z) :
  length (ring_points radius width angle_offset segments)
  = Z.to_nat segments.
Proof. unfold ring_points. rewrite length_map, length_seq. reflexivity. Qed.

Lemma ring_points_nth (angle_offset : R) (segments : Z) (k : nat) :
  (k < Z.to_nat segments)%nat ->
  nth_error (ring_points radius width angle_offset segments) k
  = Some (circle (bump_radius radius width k)
                 (ring_angle angle_offset segments k)).
Proof.
  intros Hk. unfold ring_points.
  rewrite nth_error_map, nth_error_seq.
  destruct (Nat.ltb_spec k (Z.to_nat segments)); [reflexivity | lia].
Qed.

Lemma vertex_map (pts : list (R * R)) (k : nat) :
  vertex (map fst pts, map snd pts) k = nth_error pts k.
Proof.
  unfold vertex. cbn [fst snd]. rewrite !nth_error_map.
  destruct (nth_error pts k) as [[a b] |]; reflexivity.
Qed.

End Squircle.

(** C4. With at least two segments, [squircle] samples its first [segments]
    points at the equally spaced angles
    [angle_offset + k * (2 * PI / segments)], on the inner circle
    [radius - width / 2] when [k] is even and on the outer circle
    [radius + width / 2] when [k] is odd; the end angle of [linspace] is not
    used; the one further point is a copy of the first.  When the inner
    radius is not negative these are the points of polar coordinates
    (radius, angle). *)
Theorem squircle_samples (radius width angle_offset : R) (segments : Z) :
  (2 <= segments)%Z ->
  exists xy : list R * list R,
    squircle radius width angle_offset segments = Ok xy /\
    length (fst xy) = S (Z.to_nat segments) /\
    length (snd xy) = S (Z.to_nat segments) /\
    (forall k : nat,
        (k < Z.to_nat segments)%nat ->
        vertex xy k =
        Some (circle (if Nat.even k then radius - width / 2
                      else radius + width / 2)
                     (angle_offset + INR k * (2 * PI / IZR segments)))) /\
    vertex xy (Z.to_nat segments) = vertex xy 0 /\
    (0 <= radius - width / 2 -> 0 <= width ->
     forall k : nat,
       (k < Z.to_nat segments)%nat ->
       vertex xy k =
       Some (circle_spec (if Nat.even k then radius - width / 2
                          else radius + width / 2)
                         (angle_offset + INR k * (2 * PI / IZR segments)))).
Proof.
  intros Hseg.
  pose proof (squircle_closed radius width angle_offset segments) as Hsq.
  cbv zeta in Hsq. rewrite Hsq by lia. clear Hsq.
  pose proof (ring_points_length radius width angle_offset segments) as Hlen.
  pose proof (ring_points_nth radius width angle_offset segments) as Hnth.
  set (pts := ring_points radius width angle_offset segments) in *.
  assert (Hfirst : length (firstn 1 pts) = 1%nat)
    by (rewrite length_firstn; lia).
  eexists; split; [reflexivity |]. cbn [fst snd].
  rewrite !length_map, !length_app, Hlen, Hfirst.
  assert (Hpoint : forall k : nat,
             (k < Z.to_nat segments)%nat ->
             vertex (map fst (pts ++ firstn 1 pts),
                     map snd (pts ++ firstn 1 pts)) k =
             Some (circle (if Nat.even k then radius - width / 2
                           else radius + width / 2)
                          (angle_offset + INR k * (2 * PI / IZR segments)))).
  { intros k Hk. rewrite vertex_map, nth_error_app1 by lia.
    rewrite Hnth by assumption. unfold bump_radius, ring_angle.
    do 2 f_equal. field. apply not_0_IZR. lia. }
  split; [lia |]. split; [lia |]. split; [exact Hpoint |]. split.
  - rewrite !vertex_map, nth_error_app2 by lia.
    rewrite Hlen, Nat.sub_diag, nth_error_app1 by lia.
    destruct pts as [| p rest]; [cbn in Hlen; lia | reflexivity].
  - intros Hinner Hwidth k Hk. rewrite Hpoint by assumption.
    f_equal. apply circle_polar. destruct (Nat.even k); lra.
Qed.

Lemma squircle_samples_witness :
  exists xy : list R * list R,
    squircle 1 (1 / 10) 0 8 = Ok xy /\
    vertex xy 8 = vertex xy 0.
Proof.
  destruct (squircle_samples 1 (1 / 10) 0 8) as [xy [H [_ [_ [_ [Hc _]]]]]];
    [lia |].
  exists xy. split; [exact H | exact Hc].
Defined.

(** C9. [squircle] needs only [segments >= 1]: it then returns two lists of
    [segments + 1] coordinates each, the last equal to the first.  With
    [segments = 0] the loop adds nothing and [x[0]] raises [IndexError].
    The call returns normally exactly when [segments >= 1]. *)
Theorem squircle_precondition (radius width angle_offset : R) :
  (forall segments : Z,
      (1 <= segments)%Z ->
      exists x y : list R,
        squircle radius width angle_offset segments = Ok (x, y) /\
        length x = S (Z.to_nat segments) /\
        length y = S (Z.to_nat segments) /\
        Py.getitem x (-1) = Py.getitem x 0 /\
        Py.getitem y (-1) = Py.getitem y 0 /\
        succeeds (Py.getitem x 0) /\ succeeds (Py.getitem y 0)) /\
  (exists angles : list R,
      Np.linspace angle_offset (2 * PI + angle_offset) (0 + 1) = Ok angles /\
      squircle_loop radius width 0 0 angles [] [] = ([], [])) /\
  squircle radius width angle_offset 0 = Raise IndexError /\
  (forall segments : Z,
      succeeds (squircle radius width angle_offset segments)
      <-> (1 <= segments)%Z).
Proof.
  assert (Hok : forall segments : Z,
      (1 <= segments)%Z ->
      exists x y : list R,
        squircle radius width angle_offset segments = Ok (x, y) /\
        length x = S (Z.to_nat segments) /\
        length y = S (Z.to_nat segments) /\
        Py.getitem x (-1) = Py.getitem x 0 /\
        Py.getitem y (-1) = Py.getitem y 0 /\
        succeeds (Py.getitem x 0) /\ succeeds (Py.getitem y 0)).
  { intros segments Hseg.
    pose proof (squircle_closed radius width angle_offset segments) as Hsq.
    cbv zeta in Hsq. rewrite Hsq by lia. clear Hsq.
    pose proof (ring_points_length radius width angle_offset segments) as Hlen.
    set (pts := ring_points radius width angle_offset segments) in *.
    destruct pts as [| p rest]; [cbn in Hlen; lia |].
    do 2 eexists. split; [reflexivity |].
    rewrite !length_map, !length_app. cbn [firstn length] in *.
    assert (Hget : forall (A : Type) (a : A) (l : list A),
               Py.getitem ((a :: l) ++ [a]) (-1) = Ok a /\
               Py.getitem ((a :: l) ++ [a]) 0 = Ok a).
    { intros A a l. split; [| reflexivity].
      unfold Py.getitem. rewrite length_app. cbn [length].
      destruct (Z.ltb_spec (-1) 0); [| lia].
      destruct (Z.ltb_spec (-1 + Z.of_nat (S (length l) + 1)) 0); [lia |].
      replace (Z.to_nat (-1 + Z.of_nat (S (length l) + 1)))
        with (length (a :: l)) by (cbn [length]; lia).
      rewrite nth_error_app2, Nat.sub_diag by lia. reflexivity. }
    rewrite !map_app. cbn [map].
    destruct (Hget R (fst p) (map fst rest)) as [Hx1 Hx0].
    destruct (Hget R (snd p) (map snd rest)) as [Hy1 Hy0].
    repeat split; try lia.
    - rewrite Hx1, Hx0. reflexivity.
    - rewrite Hy1, Hy0. reflexivity.
    - eexists. exact Hx0.
    - eexists. exact Hy0. }
  assert (H0 : squircle radius width angle_offset 0 = Raise IndexError)
    by reflexivity.
  split; [exact Hok |].
  split; [eexists; split; reflexivity |].
  split; [exact H0 |].
  intros segments. split.
  - intros [xy Hxy].
    destruct (Z_lt_le_dec segments 1) as [Hlt | Hge]; [exfalso | exact Hge].
    destruct (Z.eq_dec segments 0) as [-> | Hn0]; [congruence |].
    destruct (Z.eq_dec segments (-1)) as [-> | Hn1];
      [cbv in Hxy; discriminate |].
    unfold squircle in Hxy. rewrite linspace_negative in Hxy by lia.
    discriminate.
  - intros Hseg. destruct (Hok segments Hseg) as [x [y [H _]]].
    eexists. exact H.
Qed.

Lemma squircle_precondition_witness :
  (exists x y : list R, squircle 1 (1 / 10) 0 1 = Ok (x, y)) /\
  ~ succeeds (squircle 1 (1 / 10) 0 0).
Proof.
  destruct (squircle_precondition 1 (1 / 10) 0) as [Hok [_ [_ Hiff]]].
  split.
  - destruct (Hok 1%Z) as [x [y [H _]]]; [lia |]. exists x, y. exact H.
  - intros Hs. apply Hiff in Hs. lia.
Defined.

(** ** The offset schedule *)

Section Schedule.

Lemma ramp_first (a b : R) (n : nat) : ramp a b n 0 = a.
Proof. unfold ramp. cbn [INR]. ring. Qed.

Lemma ramp_last (a b : R) (n : nat) :
  (2 <= n)%nat -> ramp a b n (n - 1) = b.
Proof.
  intros Hn. unfold ramp. field. apply not_0_INR. lia.
Qed.

(** [linspace] with at least two samples is a ramp. *)
Lemma linspace_as_ramp (a b : R) (num : Z) :
  (2 <= num)%Z ->
  Np.linspace a b num =
  Ok (map (ramp a b (Z.to_nat num)) (seq 0 (Z.to_nat num))).
Proof.
  intros Hnum. rewrite linspace_ramp by assumption. f_equal.
  assert (Hd : IZR (num - 1) = INR (Z.to_nat num - 1)).
  { rewrite INR_IZR_INZ. f_equal. lia. }
  rewrite Hd.
  replace (Z.to_nat (num - 1)) with (Z.to_nat num - 1)%nat by lia.
  assert (Hn : (2 <= Z.to_nat num)%nat) by lia.
  set (n := Z.to_nat num) in *.
  replace (seq 0 n) with (seq 0 (n - 1) ++ [(n - 1)%nat]).
  - rewrite map_app. cbn [map]. rewrite ramp_last by assumption.
    f_equal. apply map_ext. intros k. unfold ramp. ring.
  - replace n with (S (n - 1)) at 3 by lia. rewrite seq_S. reflexivity.
Qed.

Lemma slice_bounds_prefix (len : nat) (z : Z) :
  (0 <= z <= Z.of_nat len)%Z ->
  Py.slice_bounds len (Some 0%Z) (Some z) = (0%nat, Z.to_nat z).
Proof.
  intros Hz. unfold Py.slice_bounds, Py.clip.
  destruct (Z.ltb_spec 0 0); [lia |].
  destruct (Z.ltb_spec z 0); [lia |].
  f_equal; lia.
Qed.

Lemma slice_bounds_suffix (len : nat) (z : Z) :
  (0 <= z <= Z.of_nat len)%Z ->
  Py.slice_bounds len (Some z) None = (Z.to_nat z, (len - Z.to_nat z)%nat).
Proof.
  intros Hz. unfold Py.slice_bounds, Py.clip.
  destruct (Z.ltb_spec z 0); [lia |].
  f_equal; lia.
Qed.

Lemma slice_bounds_inner (len : nat) :
  (2 <= len)%nat ->
  Py.slice_bounds len (Some 1%Z) (Some (-1)%Z) = (1%nat, (len - 2)%nat).
Proof.
  intros Hlen. unfold Py.slice_bounds, Py.clip.
  destruct (Z.ltb_spec 1 0); [lia |].
  destruct (Z.ltb_spec (-1) 0); [| lia].
  f_equal; lia.
Qed.

Lemma setslice_exact (a src : list R) (lo hi : option Z) (s n : nat) :
  Py.slice_bounds (length a) lo hi = (s, n) ->
  length src = n ->
  Np.setslice a lo hi src = Ok (firstn s a ++ src ++ skipn (s + n) a).
Proof.
  intros Hb Hlen. unfold Np.setslice. rewrite Hb.
  destruct (Nat.eqb_spec (length src) n); [reflexivity | contradiction].
Qed.

(** [xs[1:-1]] of a sequence given by its index function. *)
Lemma slice_inner_seq (f : nat -> R) (n : nat) :
  (2 <= n)%nat ->
  Py.slice (map f (seq 0 n)) (Some 1%Z) (Some (-1)%Z)
  = map f (seq 1 (n - 2)).
Proof.
  intros Hn. unfold Py.slice.
  rewrite slice_bounds_inner by (rewrite length_map, length_seq; lia).
  rewrite length_map, length_seq.
  destruct n as [| [| m]]; try lia.
  replace (S (S m) - 2)%nat with m by lia.
  change (seq 0 (S (S m))) with (0%nat :: seq 1 (S m)).
  cbn [map skipn]. rewrite seq_S, map_app, firstn_app.
  rewrite length_map, length_seq, Nat.sub_diag. cbn [firstn].
  rewrite app_nil_r. apply firstn_all2.
  rewrite length_map, length_seq. lia.
Qed.

(** The schedule in closed form: the rising ramp with both ends, then the
    inner samples of the falling ramp. *)
Lemma offsets_schedule_closed (rot_rings : Z) (rot_offset : R) :
  Z.even rot_rings = true ->
  (4 <= rot_rings)%Z ->
  let h := Z.to_nat (rot_rings / 2) in
  offsets_schedule rot_rings rot_offset =
  Ok (map (ramp 0 rot_offset h) (seq 0 h)
      ++ map (ramp rot_offset 0 h) (seq 1 (h - 2))).
Proof.
  intros Heven Hp h.
  apply Z.even_spec in Heven. destruct Heven as [q Hq].
  assert (Hdiv : (rot_rings / 2 = q)%Z)
    by (subst rot_rings; rewrite Z.mul_comm; apply Z.div_mul; lia).
  assert (Hh : (2 <= h)%nat) by (unfold h; lia).
  unfold offsets_schedule, Np.zeros.
  destruct (Z.ltb_spec (rot_rings - 2) 0); [lia |]. cbn [rbind].
  rewrite !linspace_as_ramp by lia. cbn [rbind]. fold h.
  rewrite slice_inner_seq by assumption.
  assert (Hz : Z.to_nat (rot_rings - 2) = (h + (h - 2))%nat)
    by (unfold h; lia).
  rewrite Hz.
  rewrite (setslice_exact _ _ _ _ 0 h).
  2:{ rewrite slice_bounds_prefix by (rewrite repeat_length; lia).
      reflexivity. }
  2:{ rewrite length_map, length_seq. reflexivity. }
  cbn [rbind firstn app]. rewrite Nat.add_0_l.
  rewrite repeat_app, skipn_app, repeat_length, Nat.sub_diag.
  rewrite skipn_all2 by (rewrite repeat_length; lia). cbn [skipn app].
  rewrite (setslice_exact _ _ _ _ h (h - 2)).
  2:{ rewrite slice_bounds_suffix;
        rewrite length_app, length_map, length_seq, repeat_length;
        [f_equal; lia | lia]. }
  2:{ rewrite length_map, length_seq. reflexivity. }
  cbn [rbind]. f_equal.
  rewrite firstn_app, length_map, length_seq, Nat.sub_diag.
  cbn [firstn]. rewrite app_nil_r.
  rewrite firstn_all2 by (rewrite length_map, length_seq; lia).
  rewrite skipn_all2, app_nil_r; [reflexivity |].
  rewrite length_app, length_map, length_seq, repeat_length. lia.
Qed.

End Schedule.

Section ScheduleShape.

Variable rot_rings : Z.
Variable rot_offset : R.
Hypothesis Heven : Z.even rot_rings = true.
Hypothesis Hperiod : (4 <= rot_rings)%Z.

Let h := Z.to_nat (rot_rings / 2).
Let n := Z.to_nat (rot_rings - 2).

Lemma schedule_sizes : (2 <= h)%nat /\ n = (h + (h - 2))%nat.
Proof.
  apply Z.even_spec in Heven. destruct Heven as [q Hq].
  assert (Hdiv : (rot_rings / 2 = q)%Z)
    by (rewrite Hq, Z.mul_comm; apply Z.div_mul; lia).
  unfold h, n. lia.
Qed.

(** Entry by entry: the rising ramp, then the inner samples of the falling
    one. *)
Lemma schedule_nth (offsets : list R) :
  offsets_schedule rot_rings rot_offset = Ok offsets ->
  length offsets = n /\
  (forall k, (k < h)%nat ->
             nth_error offsets k = Some (ramp 0 rot_offset h k)) /\
  (forall k, (1 <= k <= h - 2)%nat ->
             nth_error offsets (h + k - 1)
             = Some (ramp rot_offset 0 h k)).
Proof.
  destruct schedule_sizes as [Hh Hn].
  pose proof (offsets_schedule_closed rot_rings rot_offset Heven Hperiod)
    as Hc.
  cbv zeta in Hc. fold h in Hc. rewrite Hc. intros [= <-].
  split; [| split].
  - rewrite length_app, !length_map, !length_seq. lia.
  - intros k Hk.
    rewrite nth_error_app1 by (rewrite length_map, length_seq; lia).
    rewrite nth_error_map, nth_error_seq.
    destruct (Nat.ltb_spec k h); [reflexivity | lia].
  - intros k Hk.
    rewrite nth_error_app2 by (rewrite length_map, length_seq; lia).
    rewrite length_map, length_seq, nth_error_map, nth_error_seq.
    destruct (Nat.ltb_spec (h + k - 1 - h) (h - 2)); [| lia].
    cbn [option_map]. do 2 f_equal. lia.
Qed.

(** The schedule is the triangle wave
    [rot_offset * min i (n - i) / (h - 1)]. *)
Lemma schedule_triangle (offsets : list R) (i : nat) :
  offsets_schedule rot_rings rot_offset = Ok offsets ->
  (i < n)%nat ->
  nth_error offsets i
  = Some (rot_offset * INR (Nat.min i (n - i)) / INR (h - 1)).
Proof.
  intros Hs Hi.
  destruct schedule_sizes as [Hh Hn].
  destruct (schedule_nth offsets Hs) as [_ [Hup Hdown]].
  assert (Hm : INR (h - 1) <> 0) by (apply not_0_INR; lia).
  destruct (Nat.lt_ge_cases i h) as [Hlt | Hge].
  - rewrite Hup by assumption. f_equal.
    replace (Nat.min i (n - i)) with i by lia.
    unfold ramp. field. assumption.
  - replace i with (h + (i - h + 1) - 1)%nat at 1 by lia.
    rewrite Hdown by lia. f_equal.
    replace (Nat.min i (n - i)) with (n - i)%nat by lia.
    unfold ramp.
    assert (Hsum : INR (h - 1) = INR (n - i) + INR (i - h + 1))
      by (rewrite <- plus_INR; f_equal; lia).
    rewrite Hsum in *. field. assumption.
Qed.

End ScheduleShape.

(** C2. For an even period of at least 4 the schedule has [period - 2]
    entries.  The first [period / 2] of them are the ramp from 0 to
    [rot_offset], both ends included.  The other [period / 2 - 2] are the
    samples 1 to [period / 2 - 2] of the ramp from [rot_offset] to 0: its two
    ends, the peak and the zero, are left out. *)
Theorem offsets_schedule_ramps (rot_rings : Z) (rot_offset : R) :
  Z.even rot_rings = true ->
  (4 <= rot_rings)%Z ->
  let h := Z.to_nat (rot_rings / 2) in
  exists offsets : list R,
    offsets_schedule rot_rings rot_offset = Ok offsets /\
    length offsets = Z.to_nat (rot_rings - 2) /\
    length offsets = (h + (h - 2))%nat /\
    (forall k, (k < h)%nat ->
               nth_error offsets k = Some (ramp 0 rot_offset h k)) /\
    ramp 0 rot_offset h 0 = 0 /\
    ramp 0 rot_offset h (h - 1) = rot_offset /\
    (forall k, (1 <= k <= h - 2)%nat ->
               nth_error offsets (h + k - 1)
               = Some (ramp rot_offset 0 h k)) /\
    ramp rot_offset 0 h 0 = rot_offset /\
    ramp rot_offset 0 h (h - 1) = 0.
Proof.
  intros Heven Hperiod h.
  destruct (schedule_sizes rot_rings Heven Hperiod) as [Hh Hn]. fold h in Hh, Hn.
  pose proof (offsets_schedule_closed rot_rings rot_offset Heven Hperiod)
    as Hc. cbv zeta in Hc.
  eexists. split; [exact Hc |].
  destruct (schedule_nth rot_rings rot_offset Heven Hperiod _ Hc)
    as [Hlen [Hup Hdown]].
  fold h in Hup, Hdown.
  repeat split;
    try solve [exact Hlen | rewrite Hlen; exact Hn | exact Hup | exact Hdown
              | apply ramp_first | apply ramp_last; exact Hh].
Qed.

Lemma offsets_schedule_ramps_witness :
  exists offsets : list R,
    offsets_schedule 6 1 = Ok offsets /\ length offsets = 4%nat.
Proof.
  destruct (offsets_schedule_ramps 6 1) as [offsets [H [Hlen _]]];
    [reflexivity | lia |].
  exists offsets. split; [exact H | exact Hlen].
Defined.

(** C6. For an even period of at least 4 and [rot_offset >= 0]: every entry
    of the schedule lies in [[0, rot_offset]]; the first entry is 0; the
    entry of index [period / 2 - 1] is [rot_offset], the maximum.  Towards
    the end the entries come back down: from the peak on they never
    increase, the entry [i] places before the end equals the entry [i]
    places after the start, and the last one is a single ramp step
    [rot_offset / (period / 2 - 1)] above 0. *)
Theorem offsets_schedule_bounds (rot_rings : Z) (rot_offset : R) :
  Z.even rot_rings = true ->
  (4 <= rot_rings)%Z ->
  0 <= rot_offset ->
  let h := Z.to_nat (rot_rings / 2) in
  let n := Z.to_nat (rot_rings - 2) in
  exists offsets : list R,
    offsets_schedule rot_rings rot_offset = Ok offsets /\
    length offsets = n /\
    (forall v, In v offsets -> 0 <= v <= rot_offset) /\
    nth_error offsets 0 = Some 0 /\
    nth_error offsets (h - 1) = Some rot_offset /\
    (forall i j v w,
        (h - 1 <= i)%nat -> (i <= j)%nat ->
        nth_error offsets i = Some v -> nth_error offsets j = Some w ->
        w <= v) /\
    (forall i, (1 <= i < n)%nat ->
               nth_error offsets (n - i) = nth_error offsets i) /\
    nth_error offsets (n - 1) = Some (rot_offset / INR (h - 1)).
Proof.
  intros Heven Hperiod Hoff h n.
  destruct (schedule_sizes rot_rings Heven Hperiod) as [Hh Hn].
  fold h in Hh, Hn. fold n in Hn.
  pose proof (offsets_schedule_closed rot_rings rot_offset Heven Hperiod)
    as Hc. cbv zeta in Hc.
  eexists. split; [exact Hc |].
  pose proof (fun i => schedule_triangle rot_rings rot_offset Heven Hperiod
                         _ i Hc) as Ht.
  cbv beta in Ht. fold h n in Ht.
  destruct (schedule_nth rot_rings rot_offset Heven Hperiod _ Hc)
    as [Hlen _]. fold n in Hlen.
  set (offsets := _ ++ _) in *.
  assert (Hm : 0 < INR (h - 1)) by (apply lt_0_INR; lia).
  assert (Hval : forall k : nat, (k <= h - 1)%nat ->
             0 <= rot_offset * INR k / INR (h - 1) <= rot_offset).
  { intros k Hk. apply le_INR in Hk. pose proof (pos_INR k) as Hk0.
    split.
    - apply Rmult_le_pos; [nra | left; apply Rinv_0_lt_compat; lra].
    - apply Rmult_le_reg_r with (INR (h - 1)); [lra |].
      unfold Rdiv. rewrite Rmult_assoc, Rinv_l by lra. nra. }
  repeat split.
  - exact Hlen.
  - apply In_nth_error in H. destruct H as [i Hi].
    assert (Hlt : (i < n)%nat)
      by (rewrite <- Hlen; apply nth_error_Some; congruence).
    rewrite Ht in Hi by assumption. injection Hi as <-.
    apply Hval. lia.
  - apply In_nth_error in H. destruct H as [i Hi].
    assert (Hlt : (i < n)%nat)
      by (rewrite <- Hlen; apply nth_error_Some; congruence).
    rewrite Ht in Hi by assumption. injection Hi as <-.
    apply Hval. lia.
  - rewrite Ht by lia. cbn [Nat.min INR]. f_equal. unfold Rdiv. ring.
  - rewrite Ht by lia. f_equal.
    replace (Nat.min (h - 1) (n - (h - 1))) with (h - 1)%nat by lia.
    field. lra.
  - intros i j v w Hi Hij Hv Hw.
    assert (Hjn : (j < n)%nat)
      by (rewrite <- Hlen; apply nth_error_Some; congruence).
    rewrite Ht in Hv, Hw by lia. injection Hv as <-. injection Hw as <-.
    replace (Nat.min i (n - i)) with (n - i)%nat by lia.
    replace (Nat.min j (n - j)) with (n - j)%nat by lia.
    assert (Hle : INR (n - j) <= INR (n - i)) by (apply le_INR; lia).
    apply Rmult_le_compat_r; [left; apply Rinv_0_lt_compat; lra | nra].
  - intros i Hi. rewrite !Ht by lia.
    replace (Nat.min (n - i) (n - (n - i))) with (Nat.min i (n - i)) by lia.
    reflexivity.
  - rewrite Ht by lia.
    replace (Nat.min (n - 1) (n - (n - 1))) with 1%nat by lia.
    f_equal. cbn [INR]. unfold Rdiv. ring.
Qed.

Lemma offsets_schedule_bounds_witness :
  exists offsets : list R,
    offsets_schedule 6 1 = Ok offsets /\
    nth_error offsets 2 = Some 1.
Proof.
  destruct (offsets_schedule_bounds 6 1) as [offsets [H [_ [_ [_ [Hmax _]]]]]];
    [reflexivity | lia | lra |].
  exists offsets. split; [exact H | exact Hmax].
Defined.

(** ** The ring loop and [pattern] *)

Section Pattern.

Context {Color Gradient : Type}.

(** The loop appends lines to the axes and touches nothing else; what it
    appends and how it ends do not depend on the window it starts from. *)
Lemma for_each_frame (f : Z -> result (Line Color)) (l : list Z) :
  exists (r : result unit) (lines : list (Line Color)),
    forall s : AppWindow Color Gradient,
      for_each Color Gradient l (plot_body f) s
      = (r, mkApp (_controls s) (_gradient s) (ax s ++ lines)).
Proof.
  induction l as [| b l [r [lines IH]]].
  - exists (Ok tt), []. intros [c g a]. cbn. rewrite app_nil_r. reflexivity.
  - destruct (f b) as [ln | e] eqn:Hb.
    + exists r, (ln :: lines). intros s.
      cbn [for_each]. unfold bind at 1, plot_body at 1, bind at 1, lift.
      rewrite Hb. unfold ax_plot. rewrite IH. cbn [_controls _gradient ax].
      rewrite <- app_assoc. destruct ln. reflexivity.
    + exists (Raise e), []. intros [c g a].
      cbn [for_each]. unfold bind at 1, plot_body at 1, bind at 1, lift.
      rewrite Hb. cbn. rewrite app_nil_r. reflexivity.
Qed.

(** When every ring succeeds the loop appends exactly their lines. *)
Lemma for_each_lines (f : Z -> result (Line Color))
    (line : nat -> Line Color) (m : nat) :
  forall k : nat,
    (forall i, (k <= i < k + m)%nat -> f (Z.of_nat i) = Ok (line i)) ->
    forall s : AppWindow Color Gradient,
      for_each Color Gradient (map Z.of_nat (seq k m)) (plot_body f) s
      = (Ok tt, mkApp (_controls s) (_gradient s)
                      (ax s ++ map line (seq k m))).
Proof.
  induction m as [| m IH]; intros k Hf s.
  - destruct s as [c g a]. cbn. rewrite app_nil_r. reflexivity.
  - cbn [seq map for_each].
    unfold bind at 1, plot_body at 1, bind at 1, lift.
    rewrite Hf by lia. unfold ax_plot. rewrite IH by (intros; apply Hf; lia).
    cbn [_controls _gradient ax fst snd].
    rewrite <- app_assoc. destruct (line k). reflexivity.
Qed.

(** [pattern] either stops at the schedule, leaving the window as it was,
    or replaces the axes content by lines that depend on the parameters
    only. *)
Lemma pattern_frame (num_bumps num_rings rot_rings : Z)
    (rot_offset rad_offset bump_size : R) (cmap : R -> Color) :
  (exists e, forall s : AppWindow Color Gradient,
      pattern num_bumps num_rings rot_rings rot_offset rad_offset bump_size
              cmap s = (Raise e, s)) \/
  (exists r lines, forall s : AppWindow Color Gradient,
      pattern num_bumps num_rings rot_rings rot_offset rad_offset bump_size
              cmap s = (r, mkApp (_controls s) (_gradient s) lines)).
Proof.
  unfold pattern.
  destruct (offsets_schedule rot_rings rot_offset) as [offsets | e].
  - right.
    destruct (for_each_frame
                (ring num_bumps num_rings rot_rings rad_offset bump_size
                      offsets cmap) (Py.range num_rings))
      as [r [lines H]].
    exists r, lines. intros s. unfold bind at 1, lift.
    unfold bind at 1, ax_clear. unfold plot_body in H. rewrite H.
    reflexivity.
  - left. exists e. intros s. reflexivity.
Qed.

(** [redraw] is [pattern] on the doubled values once the colormap is
    built. *)
Lemma redraw_unfold (from_list : Gradient -> result (R -> Color))
    (s : AppWindow Color Gradient) :
  redraw from_list s =
  match from_list (_gradient s) with
  | Ok cmap =>
      let vals := get_values (_controls s) in
      pattern (num_bumps vals * 2) (num_rings vals) (rot_rings vals * 2)
              (rot_offset vals) (rad_offset vals) (bump_size vals) cmap s
  | Raise e => (Raise e, s)
  end.
Proof.
  unfold redraw, bind, get, lift.
  destruct (from_list (_gradient s)); reflexivity.
Qed.

End Pattern.

(** [a[k]] for an index inside the sequence. *)
Lemma getitem_nat {A : Type} (a : list A) (k : nat) (d : A) :
  (k < length a)%nat -> Py.getitem a (Z.of_nat k) = Ok (nth k a d).
Proof.
  intros Hk. unfold Py.getitem. cbv zeta.
  destruct (Z.ltb_spec (Z.of_nat k) 0) as [Hneg | _]; [lia |].
  destruct (Z.ltb_spec (Z.of_nat k) 0) as [Hneg | _]; [lia |].
  rewrite Nat2Z.id, (nth_error_nth' a d Hk). reflexivity.
Qed.

Section Rings.

Context {Color Gradient : Type}.
Variables num_bumps num_rings rot_rings : Z.
Variables rot_offset rad_offset bump_size : R.
Variable cmap : R -> Color.
Variable offsets : list R.

Hypothesis Hsegments : (1 <= num_bumps)%Z.
Hypothesis Hmodulus : (0 < rot_rings - 2)%Z.
Hypothesis Hlength : length offsets = Z.to_nat (rot_rings - 2).

(** With a schedule of the right length and at least one segment, the
    arguments of the plot call evaluate without raising. *)
Lemma ring_scheduled (i : nat) :
  ring num_bumps num_rings rot_rings rad_offset bump_size offsets cmap
       (Z.of_nat i)
  = Ok (ring_line num_bumps num_rings rad_offset bump_size offsets cmap i).
Proof.
  unfold ring, Py.mod_int, ring_line.
  destruct (Z.eqb_spec (rot_rings - 2) 0); [lia |]. cbn [rbind].
  assert (Hidx : (Z.of_nat i mod (rot_rings - 2))%Z
                 = Z.of_nat (i mod length offsets)).
  { rewrite Nat2Z.inj_mod, Hlength, Z2Nat.id by lia. reflexivity. }
  assert (Hlt : (i mod length offsets < length offsets)%nat)
    by (apply Nat.mod_upper_bound; lia).
  rewrite Hidx, (getitem_nat offsets (i mod length offsets) 0 Hlt).
  cbn [rbind].
  pose proof (squircle_closed (1 + rad_offset * IZR (Z.of_nat i)) bump_size
                (nth (i mod length offsets) offsets 0) num_bumps Hsegments)
    as Hsq.
  cbv zeta in Hsq. cbv zeta. rewrite Hsq. cbn [rbind].
  rewrite <- INR_IZR_INZ. reflexivity.
Qed.

Lemma pattern_lines (s : AppWindow Color Gradient) :
  offsets_schedule rot_rings rot_offset = Ok offsets ->
  pattern num_bumps num_rings rot_rings rot_offset rad_offset bump_size
          cmap s
  = (Ok tt,
     mkApp (_controls s) (_gradient s)
           (map (ring_line num_bumps num_rings rad_offset bump_size
                           offsets cmap)
                (seq 0 (Z.to_nat num_rings)))).
Proof.
  intros Hs. unfold pattern. rewrite Hs.
  unfold bind at 1, lift. unfold bind at 1, ax_clear.
  pose proof (for_each_lines (Gradient := Gradient)
                (ring num_bumps num_rings rot_rings rad_offset bump_size
                      offsets cmap)
                (ring_line num_bumps num_rings rad_offset bump_size
                           offsets cmap)
                (Z.to_nat num_rings) 0 (fun i _ => ring_scheduled i)) as H.
  unfold plot_body in H. unfold Py.range. rewrite H. reflexivity.
Qed.

(** The polyline of a ring: its length, its points and its closure. *)
Lemma ring_line_shape (i : nat) :
  let offset := nth (i mod length offsets) offsets 0 in
  let xy := fst (ring_line num_bumps num_rings rad_offset bump_size
                           offsets cmap i) in
  squircle (1 + rad_offset * INR i) bump_size offset num_bumps = Ok xy /\
  length (fst xy) = S (Z.to_nat num_bumps) /\
  length (snd xy) = S (Z.to_nat num_bumps) /\
  (forall k, (k < Z.to_nat num_bumps)%nat ->
     vertex xy k
     = Some (circle (bump_radius (1 + rad_offset * INR i) bump_size k)
                    (ring_angle offset num_bumps k))) /\
  vertex xy (Z.to_nat num_bumps) = vertex xy 0.
Proof.
  intros offset xy. unfold xy, ring_line. cbn [fst]. fold offset.
  pose proof (squircle_closed (1 + rad_offset * INR i) bump_size
                offset num_bumps Hsegments) as Hsq.
  cbv zeta in Hsq. rewrite Hsq. clear Hsq.
  pose proof (ring_points_length (1 + rad_offset * INR i) bump_size
                offset num_bumps) as Hlen.
  pose proof (ring_points_nth (1 + rad_offset * INR i) bump_size
                offset num_bumps) as Hnth.
  set (pts := ring_points _ _ _ _) in *.
  assert (Hfirst : length (firstn 1 pts) = 1%nat)
    by (rewrite length_firstn; lia).
  split; [reflexivity |]. cbn [fst snd].
  rewrite !length_map, !length_app, Hlen, Hfirst.
  repeat split; try lia.
  - intros k Hk. rewrite vertex_map, nth_error_app1 by lia.
    apply Hnth. assumption.
  - rewrite !vertex_map, nth_error_app2 by lia.
    rewrite Hlen, Nat.sub_diag, nth_error_app1 by lia.
    destruct pts as [| p rest]; [cbn in Hlen; lia | reflexivity].
Qed.

End Rings.

(** C1. For every valid parameter set the generator leaves exactly
    [ring_count] lines on the axes.  Line [i] is the result of [squircle]
    at radius [1 + radial_step * i], width [bump_width], angular offset
    [schedule[i mod len(schedule)]] and [bump_count * 2] segments, with the
    color [cmap (i / ring_count)]; it has [bump_count * 2 + 1] points, the
    last equal to the first.  [redraw] yields these lines when the panel
    holds the parameter set, the period being its doubled [rot_rings]. *)
Theorem pattern_rings {Color Gradient : Type} (cmap : R -> Color)
    (s : AppWindow Color Gradient)
    (bump_count ring_count rotation_period : Z)
    (rotation_offset radial_step bump_width : R) :
  (2 <= bump_count)%Z ->
  (1 <= ring_count)%Z ->
  Z.even rotation_period = true ->
  (4 <= rotation_period)%Z ->
  0 <= rotation_offset <= 2 * PI ->
  0 < radial_step ->
  0 < bump_width ->
  exists (schedule : list R) (rings : list (Line Color)),
    offsets_schedule rotation_period rotation_offset = Ok schedule /\
    pattern (bump_count * 2) ring_count rotation_period rotation_offset
            radial_step bump_width cmap s
    = (Ok tt, mkApp (_controls s) (_gradient s) rings) /\
    (forall (from_list : Gradient -> result (R -> Color)) (widget_value : Z),
        get_values (_controls s)
        = mkVals bump_count ring_count widget_value
                 rotation_offset radial_step bump_width ->
        rotation_period = (widget_value * 2)%Z ->
        from_list (_gradient s) = Ok cmap ->
        redraw from_list s
        = (Ok tt, mkApp (_controls s) (_gradient s) rings)) /\
    length rings = Z.to_nat ring_count /\
    forall i : nat,
      (i < Z.to_nat ring_count)%nat ->
      exists (offset : R) (xy : list R * list R),
        nth_error schedule (i mod length schedule) = Some offset /\
        squircle (1 + radial_step * INR i) bump_width offset (bump_count * 2)
        = Ok xy /\
        nth_error rings i = Some (xy, cmap (INR i / IZR ring_count)) /\
        length (fst xy) = Z.to_nat (bump_count * 2 + 1) /\
        length (snd xy) = Z.to_nat (bump_count * 2 + 1) /\
        vertex xy (Z.to_nat (bump_count * 2)) = vertex xy 0 /\
        vertex xy 0 <> None.
Proof.
  intros Hb Hr Heven Hp _ _ _.
  pose proof (offsets_schedule_closed rotation_period rotation_offset
                Heven Hp) as Hc. cbv zeta in Hc.
  destruct (schedule_nth rotation_period rotation_offset Heven Hp _ Hc)
    as [Hlen _].
  set (schedule := _ ++ _) in *.
  assert (Hseg : (1 <= bump_count * 2)%Z) by lia.
  assert (Hmod : (0 < rotation_period - 2)%Z) by lia.
  exists schedule. eexists. split; [exact Hc |].
  pose proof (pattern_lines _ ring_count _ _ radial_step bump_width cmap
                schedule Hseg Hmod Hlen s Hc) as Hpat.
  split; [exact Hpat |].
  split.
  { intros from_list widget_value Hvals Hdouble Hcmap.
    rewrite redraw_unfold, Hcmap, Hvals. cbv zeta.
    cbn [num_bumps num_rings rot_rings rot_offset rad_offset bump_size].
    rewrite <- Hdouble. exact Hpat. }
  split; [rewrite length_map, length_seq; reflexivity |].
  intros i Hi.
  destruct (ring_line_shape (bump_count * 2) ring_count rotation_period
              radial_step bump_width cmap schedule Hseg Hmod Hlen i)
    as [Hsq [Hlx [Hly [Hv Hclose]]]].
  assert (Hlt : (i mod length schedule < length schedule)%nat)
    by (apply Nat.mod_upper_bound; lia).
  eexists. eexists.
  split; [apply (nth_error_nth' schedule 0 Hlt) |].
  split; [exact Hsq |].
  split.
  { rewrite nth_error_map, nth_error_seq.
    destruct (Nat.ltb_spec i (Z.to_nat ring_count)); [| lia].
    reflexivity. }
  split; [rewrite Hlx; lia |].
  split; [rewrite Hly; lia |].
  split; [exact Hclose |].
  rewrite Hv by lia. discriminate.
Qed.

Lemma pattern_rings_witness :
  exists rings : list (Line unit),
    pattern (4 * 2) 2 4 0 (1 / 10) (1 / 10) (fun _ => tt)
            (mkApp (ControlPanel_init initial_vals) tt [])
    = (Ok tt, mkApp (ControlPanel_init initial_vals) tt rings) /\
    length rings = 2%nat.
Proof.
  pose proof PI_RGT_0 as Hpi.
  destruct (pattern_rings (fun _ : R => tt)
              (mkApp (ControlPanel_init initial_vals) tt [])
              4 2 4 0 (1 / 10) (1 / 10))
    as [schedule [rings [_ [H [_ [Hlen _]]]]]];
    [lia | lia | reflexivity | lia | lra | lra | lra |].
  exists rings. split; [exact H | exact Hlen].
Defined.

(** ** The worked example *)

Lemma schedule_period_4_flat : offsets_schedule 4 0 = Ok [0; 0].
Proof.
  pose proof (offsets_schedule_closed 4 0 eq_refl ltac:(lia)) as Hc.
  cbv zeta in Hc. rewrite Hc.
  change (Z.to_nat (4 / 2)) with 2%nat. cbn [seq map app Nat.sub].
  repeat f_equal; unfold ramp, Rdiv; ring.
Qed.

(** A vertex of a ring of the example: eight segments, offset 0, width
    1/10, radius not below 1. *)
Lemma example_vertex (radius inner outer : R) (xy : list R * list R)
    (k : nat) :
  1 <= radius ->
  inner = radius - 1 / 10 / 2 ->
  outer = radius + 1 / 10 / 2 ->
  vertex xy k = Some (circle (bump_radius radius (1 / 10) k)
                             (ring_angle 0 8 k)) ->
  vertex xy k = Some (circle_spec (if Nat.even k then inner else outer)
                                  (INR k * (PI / 4))).
Proof.
  intros Hr -> -> ->. f_equal.
  rewrite circle_polar
    by (unfold bump_radius; destruct (Nat.even k); lra).
  unfold circle_spec, bump_radius, ring_angle.
  replace (INR k * ((2 * PI + 0 - 0) / 8) + 0) with (INR k * (PI / 4))
    by field.
  destruct (Nat.even k); reflexivity.
Qed.

(** C7. For bump_count 4, ring_count 2, rotation_period 4, rotation_offset
    0, radial_step 1/10 and bump_width 1/10 the schedule is [[0; 0]], so
    both rings have offset 0, and the generator leaves exactly two polylines
    of 9 points.  Point [k] of the first lies at angle [k * 45] degrees on
    the circle of radius 0.95 for even [k] and 1.05 for odd [k]; of the
    second, 1.05 and 1.15; the ninth point of each is its first. *)
Theorem example_two_rings {Color Gradient : Type} (cmap : R -> Color)
    (s : AppWindow Color Gradient) :
  exists ring0 ring1 : list R * list R,
    offsets_schedule 4 0 = Ok [0; 0] /\
    pattern (4 * 2) 2 4 0 (1 / 10) (1 / 10) cmap s
    = (Ok tt, mkApp (_controls s) (_gradient s)
                    [(ring0, cmap (0 / 2)); (ring1, cmap (1 / 2))]) /\
    (length (fst ring0) = 9%nat /\ length (snd ring0) = 9%nat) /\
    (length (fst ring1) = 9%nat /\ length (snd ring1) = 9%nat) /\
    (forall k, (k < 8)%nat ->
       vertex ring0 k
       = Some (circle_spec (if Nat.even k then 95 / 100 else 105 / 100)
                           (INR k * (PI / 4)))) /\
    vertex ring0 8 = vertex ring0 0 /\
    (forall k, (k < 8)%nat ->
       vertex ring1 k
       = Some (circle_spec (if Nat.even k then 105 / 100 else 115 / 100)
                           (INR k * (PI / 4)))) /\
    vertex ring1 8 = vertex ring1 0.
Proof.
  assert (Hseg : (1 <= 4 * 2)%Z) by lia.
  assert (Hmod : (0 < 4 - 2)%Z) by lia.
  assert (Hlen : length [0; 0] = Z.to_nat (4 - 2)) by reflexivity.
  pose proof (pattern_lines (4 * 2) 2 4 0 (1 / 10) (1 / 10) cmap [0; 0]
                Hseg Hmod Hlen s schedule_period_4_flat) as Hp.
  pose proof (ring_line_shape (4 * 2) 2 4 (1 / 10) (1 / 10) cmap [0; 0]
                Hseg Hmod Hlen 0) as H0.
  pose proof (ring_line_shape (4 * 2) 2 4 (1 / 10) (1 / 10) cmap [0; 0]
                Hseg Hmod Hlen 1) as H1.
  cbv zeta in H0, H1.
  change (nth (0 mod length [0; 0]) [0; 0] 0) with 0 in H0.
  change (nth (1 mod length [0; 0]) [0; 0] 0) with 0 in H1.
  change (Z.to_nat (4 * 2)) with 8%nat in H0, H1.
  change (4 * 2)%Z with 8%Z in *.
  change (Z.to_nat 2) with 2%nat in Hp. cbn [seq map] in Hp.
  set (l0 := ring_line 8 2 (1 / 10) (1 / 10) [0; 0] cmap 0) in *.
  set (l1 := ring_line 8 2 (1 / 10) (1 / 10) [0; 0] cmap 1) in *.
  destruct H0 as [_ [Hx0 [Hy0 [Hv0 Hc0]]]].
  destruct H1 as [_ [Hx1 [Hy1 [Hv1 Hc1]]]].
  exists (fst l0), (fst l1).
  split; [exact schedule_period_4_flat |].
  split; [exact Hp |].
  repeat split; try assumption.
  - intros k Hk.
    apply (example_vertex (1 + 1 / 10 * INR 0));
      [cbn [INR]; lra | cbn [INR]; lra | cbn [INR]; lra |].
    apply Hv0. exact Hk.
  - intros k Hk.
    apply (example_vertex (1 + 1 / 10 * INR 1));
      [cbn [INR]; lra | cbn [INR]; lra | cbn [INR]; lra |].
    apply Hv1. exact Hk.
Qed.

(** ** Determinism of [redraw] *)

Section Redraw.

Context {Color Gradient : Type}.
Variable from_list : Gradient -> result (R -> Color).

(** For given values and gradient, [redraw] either raises before it
    touches the window, or puts on the axes lines that depend on the values
    and the gradient only. *)
Lemma redraw_frame (vals : Vals) (g : Gradient) :
  (exists e, forall s : AppWindow Color Gradient,
      get_values (_controls s) = vals -> _gradient s = g ->
      redraw from_list s = (Raise e, s)) \/
  (exists r lines, forall s : AppWindow Color Gradient,
      get_values (_controls s) = vals -> _gradient s = g ->
      redraw from_list s = (r, mkApp (_controls s) (_gradient s) lines)).
Proof.
  destruct (from_list g) as [cmap | e] eqn:Hg.
  - destruct (pattern_frame (Gradient := Gradient)
                (num_bumps vals * 2) (num_rings vals) (rot_rings vals * 2)
                (rot_offset vals) (rad_offset vals) (bump_size vals) cmap)
      as [[e H] | [r [lines H]]].
    + left. exists e. intros s Hv Hgs.
      rewrite redraw_unfold, Hgs, Hg, Hv. apply H.
    + right. exists r, lines. intros s Hv Hgs.
      rewrite redraw_unfold, Hgs, Hg, Hv. cbv zeta. rewrite H, Hgs.
      reflexivity.
  - left. exists e. intros s Hv Hgs.
    rewrite redraw_unfold, Hgs, Hg. reflexivity.
Qed.

(** [redraw] changes neither the control panel nor the gradient. *)
Lemma redraw_keeps_inputs (s : AppWindow Color Gradient) :
  _controls (snd (redraw from_list s)) = _controls s /\
  _gradient (snd (redraw from_list s)) = _gradient s.
Proof.
  destruct (redraw_frame (get_values (_controls s)) (_gradient s))
    as [[e H] | [r [lines H]]];
    rewrite (H s eq_refl eq_refl); split; reflexivity.
Qed.

End Redraw.

(** C8. [redraw] is deterministic: two calls on windows with the same
    values and the same gradient end the same way and, when they return,
    leave the same lines (coordinates and colors) on the axes, whatever the
    axes held before.  A call changes neither the values nor the gradient, so
    this covers a second call after a first. *)
Theorem redraw_deterministic {Color Gradient : Type}
    (from_list : Gradient -> result (R -> Color))
    (s1 s2 : AppWindow Color Gradient) :
  get_values (_controls s1) = get_values (_controls s2) ->
  _gradient s1 = _gradient s2 ->
  fst (redraw from_list s1) = fst (redraw from_list s2) /\
  (succeeds (fst (redraw from_list s1)) ->
   ax (snd (redraw from_list s1)) = ax (snd (redraw from_list s2))) /\
  get_values (_controls (snd (redraw from_list s1)))
  = get_values (_controls s1) /\
  _gradient (snd (redraw from_list s1)) = _gradient s1.
Proof.
  intros Hv Hg.
  destruct (redraw_keeps_inputs from_list s1) as [Hc1 Hg1].
  destruct (redraw_frame from_list (get_values (_controls s1)) (_gradient s1))
    as [[e H] | [r [lines H]]];
    rewrite (H s1 eq_refl eq_refl),
            (H s2 (eq_sym Hv) (eq_sym Hg)) in *; cbn [fst snd ax].
  - repeat split; try (rewrite Hc1 || rewrite Hg1); try reflexivity.
    intros [a Ha]. discriminate.
  - repeat split; reflexivity.
Qed.

Lemma redraw_deterministic_witness :
  let from_list := fun _ : unit => Ok (fun _ : R => tt) in
  let s1 := mkApp (ControlPanel_init initial_vals) tt [] in
  let s2 := mkApp (ControlPanel_init initial_vals) tt
                  [(([1], [1]), tt)] in
  fst (redraw from_list s1) = fst (redraw from_list s2).
Proof.
  intros from_list s1 s2.
  apply (redraw_deterministic from_list s1 s2); reflexivity.
Defined.

(** ** No validation in the generator *)

Section Unvalidated.

Context {Color Gradient : Type}.
Variables num_bumps num_rings rot_rings : Z.
Variables rot_offset rad_offset bump_size : R.
Variable cmap : R -> Color.

Lemma schedule_negative_size :
  (rot_rings < 2)%Z ->
  offsets_schedule rot_rings rot_offset = Raise ValueError.
Proof.
  intros H. unfold offsets_schedule, Np.zeros.
  destruct (Z.ltb_spec (rot_rings - 2) 0); [reflexivity | lia].
Qed.

Lemma schedule_period_2 : offsets_schedule 2 rot_offset = Ok [].
Proof. reflexivity. Qed.

Lemma schedule_period_3 :
  offsets_schedule 3 rot_offset = Ok [0 * (rot_offset - 0) + 0].
Proof. reflexivity. Qed.

Lemma pattern_schedule_raises (e : exn) (s : AppWindow Color Gradient) :
  offsets_schedule rot_rings rot_offset = Raise e ->
  pattern num_bumps num_rings rot_rings rot_offset rad_offset bump_size
          cmap s = (Raise e, s).
Proof. intros H. unfold pattern. rewrite H. reflexivity. Qed.

Lemma pattern_no_rings (offsets : list R) (s : AppWindow Color Gradient) :
  offsets_schedule rot_rings rot_offset = Ok offsets ->
  (num_rings < 1)%Z ->
  pattern num_bumps num_rings rot_rings rot_offset rad_offset bump_size
          cmap s = (Ok tt, mkApp (_controls s) (_gradient s) []).
Proof.
  intros H Hr. unfold pattern, Py.range. rewrite H.
  replace (Z.to_nat num_rings) with 0%nat by lia. reflexivity.
Qed.

Lemma pattern_first_ring_raises (offsets : list R) (e : exn)
    (s : AppWindow Color Gradient) :
  offsets_schedule rot_rings rot_offset = Ok offsets ->
  (1 <= num_rings)%Z ->
  ring num_bumps num_rings rot_rings rad_offset bump_size offsets cmap 0
  = Raise e ->
  pattern num_bumps num_rings rot_rings rot_offset rad_offset bump_size
          cmap s = (Raise e, mkApp (_controls s) (_gradient s) []).
Proof.
  intros H Hr He. unfold pattern, Py.range. rewrite H.
  destruct (Z.to_nat num_rings) as [| m] eqn:E; [lia |].
  cbn [seq map for_each]. unfold bind, lift, ax_clear.
  change (Z.of_nat 0) with 0%Z. rewrite He. reflexivity.
Qed.

(** The first ring when the schedule is sound: only [squircle] can
    raise. *)
Lemma ring_0_squircle (offsets : list R) :
  (0 < rot_rings - 2)%Z ->
  length offsets = Z.to_nat (rot_rings - 2) ->
  ring num_bumps num_rings rot_rings rad_offset bump_size offsets cmap 0
  = rbind (squircle (1 + rad_offset * 0) bump_size (nth 0 offsets 0)
                    num_bumps)
          (fun xy => Ok (xy, cmap (0 / IZR num_rings))).
Proof.
  intros Hm Hl. unfold ring, Py.mod_int.
  destruct (Z.eqb_spec (rot_rings - 2) 0); [lia |].
  rewrite Z.mod_0_l by lia. cbn [rbind].
  assert (Hg : Py.getitem offsets 0 = Ok (nth 0 offsets 0))
    by (apply (getitem_nat offsets 0 0); lia).
  rewrite Hg. reflexivity.
Qed.

End Unvalidated.

(** C3, as stated, fails: with rotation_period 2 (and the other values of
    the worked example) the generator stops with [ZeroDivisionError], the
    numeric exception of the modulus in the ring loop, not with a validation
    error. *)
Lemma validation_counterexample :
  (2 < 4)%Z /\
  fst (pattern (4 * 2) 2 2 0 (1 / 10) (1 / 10) (fun _ : R => tt)
               (mkApp (ControlPanel_init initial_vals) tt []))
  = Raise ZeroDivisionError /\
  ~ rejected
      (fst (pattern (4 * 2) 2 2 0 (1 / 10) (1 / 10) (fun _ : R => tt)
                    (mkApp (ControlPanel_init initial_vals) tt []))).
Proof.
  assert (H : fst (pattern (4 * 2) 2 2 0 (1 / 10) (1 / 10) (fun _ : R => tt)
                     (mkApp (ControlPanel_init initial_vals) tt []))
              = Raise ZeroDivisionError).
  { rewrite (pattern_first_ring_raises (4 * 2) 2 2 0 (1 / 10) (1 / 10)
               (fun _ : R => tt) [] ZeroDivisionError);
      [reflexivity | apply schedule_period_2 | lia | reflexivity]. }
  split; [lia |]. split; [exact H |].
  rewrite H. intros [e [He Hn]]. injection He as <-.
  apply Hn. left. reflexivity.
Qed.

(** C3, amended.  The generator has no validation step of its own; what an
    invalid value does depends on where the geometry meets it.
    - rotation_period below 2: [np.zeros] raises [ValueError] and the
      window is left as it was;
    - rotation_period 2: the schedule is empty, and the first ring raises
      [ZeroDivisionError] after the axes were cleared; with no ring to draw
      nothing is raised;
    - rotation_period 3, or an even rotation_period of at least 4: the
      schedule is built ([[0]] for period 3), and then ring_count below 1
      draws nothing and raises nothing; with at least one ring, a
      bump_count of at least 1 (so also the invalid 1) draws every ring,
      bump_count 0 raises [IndexError] at the first ring, and a negative
      bump_count raises [ValueError] there. *)
Theorem pattern_unvalidated {Color Gradient : Type} (cmap : R -> Color)
    (s : AppWindow Color Gradient)
    (bump_count ring_count rotation_period : Z)
    (rotation_offset radial_step bump_width : R) :
  let run :=
    pattern (bump_count * 2) ring_count rotation_period rotation_offset
            radial_step bump_width cmap s in
  let cleared := mkApp (_controls s) (_gradient s) [] in
  ((rotation_period < 2)%Z -> run = (Raise ValueError, s)) /\
  (rotation_period = 2%Z -> (1 <= ring_count)%Z ->
   run = (Raise ZeroDivisionError, cleared)) /\
  (rotation_period = 2%Z -> (ring_count < 1)%Z -> run = (Ok tt, cleared)) /\
  (rotation_period = 3%Z ->
   offsets_schedule rotation_period rotation_offset
   = Ok [0 * (rotation_offset - 0) + 0]) /\
  (rotation_period = 3%Z \/
   (Z.even rotation_period = true /\ (4 <= rotation_period)%Z) ->
   (exists offsets,
       offsets_schedule rotation_period rotation_offset = Ok offsets) /\
   ((ring_count < 1)%Z -> run = (Ok tt, cleared)) /\
   ((1 <= ring_count)%Z -> (1 <= bump_count)%Z ->
    fst run = Ok tt /\ length (ax (snd run)) = Z.to_nat ring_count) /\
   ((1 <= ring_count)%Z -> bump_count = 0%Z ->
    run = (Raise IndexError, cleared)) /\
   ((1 <= ring_count)%Z -> (bump_count < 0)%Z ->
    run = (Raise ValueError, cleared))).
Proof.
  intros run cleared. unfold run, cleared. clear run cleared.
  split; [| split; [| split; [| split]]].
  - intros Hp. apply pattern_schedule_raises, schedule_negative_size, Hp.
  - intros -> Hr.
    apply (pattern_first_ring_raises _ _ _ _ _ _ _ []);
      [apply schedule_period_2 | exact Hr | reflexivity].
  - intros -> Hr.
    apply (pattern_no_rings _ _ _ _ _ _ _ []);
      [apply schedule_period_2 | exact Hr].
  - intros ->. apply schedule_period_3.
  - intros Hperiod.
    assert (Hsched : exists offsets : list R,
               offsets_schedule rotation_period rotation_offset = Ok offsets /\
               length offsets = Z.to_nat (rotation_period - 2) /\
               (0 < rotation_period - 2)%Z).
    { destruct Hperiod as [-> | [Heven Hp]].
      - eexists. split; [apply schedule_period_3 |].
        split; [reflexivity | lia].
      - pose proof (offsets_schedule_closed rotation_period rotation_offset
                      Heven Hp) as Hc. cbv zeta in Hc.
        destruct (schedule_nth rotation_period rotation_offset Heven Hp _ Hc)
          as [Hlen _].
        eexists. split; [exact Hc |]. split; [exact Hlen | lia]. }
    destruct Hsched as [schedule [Hc [Hlen Hmod]]].
    split; [exists schedule; exact Hc |].
    split; [| split; [| split]].
    + intros Hr.
      apply (pattern_no_rings _ _ _ _ _ _ _ schedule); [exact Hc | exact Hr].
    + intros Hr Hb.
      rewrite (pattern_lines (bump_count * 2) ring_count rotation_period
                 rotation_offset radial_step bump_width cmap schedule);
        [| lia | exact Hmod | exact Hlen | exact Hc].
      cbn [fst snd ax]. rewrite length_map, length_seq.
      split; reflexivity.
    + intros Hr ->.
      apply (pattern_first_ring_raises _ _ _ _ _ _ _ schedule);
        [exact Hc | exact Hr |].
      rewrite ring_0_squircle by assumption. reflexivity.
    + intros Hr Hb.
      apply (pattern_first_ring_raises _ _ _ _ _ _ _ schedule);
        [exact Hc | exact Hr |].
      rewrite ring_0_squircle by assumption.
      unfold squircle. rewrite linspace_negative by lia. reflexivity.
Qed.

Lemma pattern_unvalidated_witness :
  pattern (4 * 2) 0 4 0 (1 / 10) (1 / 10) (fun _ : R => tt)
          (mkApp (ControlPanel_init initial_vals) tt [(([1], [1]), tt)])
  = (Ok tt, mkApp (ControlPanel_init initial_vals) tt []) /\
  pattern (4 * 2) 2 1 0 (1 / 10) (1 / 10) (fun _ : R => tt)
          (mkApp (ControlPanel_init initial_vals) tt [])
  = (Raise ValueError, mkApp (ControlPanel_init initial_vals) tt []) /\
  pattern (0 * 2) 1 3 0 (1 / 10) (1 / 10) (fun _ : R => tt)
          (mkApp (ControlPanel_init initial_vals) tt [])
  = (Raise IndexError, mkApp (ControlPanel_init initial_vals) tt []).
Proof.
  split; [| split].
  - destruct (pattern_unvalidated (fun _ : R => tt)
                (mkApp (ControlPanel_init initial_vals) tt [(([1], [1]), tt)])
                4 0 4 0 (1 / 10) (1 / 10)) as [_ [_ [_ [_ H]]]].
    destruct H as [_ [H0 _]]; [right; split; [reflexivity | lia] |].
    apply H0. lia.
  - destruct (pattern_unvalidated (fun _ : R => tt)
                (mkApp (ControlPanel_init initial_vals) tt [])
                4 2 1 0 (1 / 10) (1 / 10)) as [H _].
    apply H. lia.
  - destruct (pattern_unvalidated (fun _ : R => tt)
                (mkApp (ControlPanel_init initial_vals) tt [])
                0 1 3 0 (1 / 10) (1 / 10)) as [_ [_ [_ [_ H]]]].
    destruct H as [_ [_ [_ [H0 _]]]]; [left; reflexivity |].
    apply H0; [lia | reflexivity].
Defined.

(** ** What the control panel lets through *)

Section Panel.

Context {Color Gradient : Type}.
Variable from_list : Gradient -> result (R -> Color).

Lemma panel_ok_init : panel_ok (ControlPanel_init initial_vals).
Proof. unfold panel_ok. cbn. lia. Qed.

Ltac panel_step :=
  unfold panel_ok, update, store_num_bumps, store_num_rings,
    store_rot_rings, store_rot_offset, store_rad_offset, store_bump_size,
    Qt.setValue, Qt.bound;
  cbn [_vals _num_bumps _num_rings _rot_rings _rot_offset _rad_offset
       _bump_size num_bumps num_rings rot_rings
       Qt.minimum Qt.maximum Qt.value];
  lia.

Lemma edit_spin_ok (w : ControlPanel -> Qt.QSpinBox)
    (store : Qt.QSpinBox -> ControlPanel -> ControlPanel) (v : Z)
    (s : AppWindow Color Gradient) :
  panel_ok (store (Qt.setValue v (w (_controls s))) (_controls s)) ->
  panel_ok (update (store (Qt.setValue v (w (_controls s))) (_controls s))) ->
  panel_ok (_controls (snd (edit_spin Color Gradient from_list w store v s))).
Proof.
  intros H1 H2. unfold edit_spin. cbv zeta.
  destruct (Z.eqb _ _); [exact H1 |].
  destruct (redraw_keeps_inputs from_list
              (with_controls Color Gradient
                 (update (store (Qt.setValue v (w (_controls s)))
                                (_controls s))) s)) as [Hc _].
  rewrite Hc. exact H2.
Qed.

Lemma edit_dspin_ok (w : ControlPanel -> Qt.QDoubleSpinBox)
    (store : Qt.QDoubleSpinBox -> ControlPanel -> ControlPanel) (v : R)
    (s : AppWindow Color Gradient) :
  panel_ok (store (Qt.setValueD v (w (_controls s))) (_controls s)) ->
  panel_ok (update (store (Qt.setValueD v (w (_controls s))) (_controls s))) ->
  panel_ok (_controls (snd (edit_dspin Color Gradient from_list w store v s))).
Proof.
  intros H1 H2. unfold edit_dspin. cbv zeta.
  destruct (Req_dec_T _ _); [exact H1 |].
  destruct (redraw_keeps_inputs from_list
              (with_controls Color Gradient
                 (update (store (Qt.setValueD v (w (_controls s)))
                                (_controls s))) s)) as [Hc _].
  rewrite Hc. exact H2.
Qed.

Lemma handle_panel_ok (e : event Gradient) (s : AppWindow Color Gradient) :
  panel_ok (_controls s) ->
  panel_ok (_controls (snd (handle from_list e s))).
Proof.
  intros H. destruct (_controls s) as [vals nb nr rr ro ra bs] eqn:Ec.
  destruct e as [v | v | v | v | v | v | g |]; cbn [handle];
    try (apply edit_spin_ok; rewrite Ec; revert H; panel_step);
    try (apply edit_dspin_ok; rewrite Ec; revert H; panel_step).
  - destruct (redraw_keeps_inputs from_list
                (mkApp (_controls s) g (ax s))) as [Hc _].
    rewrite Hc. cbn [_controls]. rewrite Ec. exact H.
  - cbn. rewrite Ec. exact H.
Qed.

(** Every window the application can reach has a sound panel. *)
Lemma reachable_panel_ok (s : AppWindow Color Gradient) :
  reachable from_list s -> panel_ok (_controls s).
Proof.
  induction 1 as [g0 | e s Hs IH].
  - unfold AppWindow_init.
    destruct (redraw_keeps_inputs from_list
                (mkApp (ControlPanel_init initial_vals) g0 [])) as [Hc _].
    rewrite Hc. apply panel_ok_init.
  - apply handle_panel_ok. exact IH.
Qed.

End Panel.

(** Twice a positive count, less one, is odd. *)
Lemma last_index_odd (b : Z) :
  (1 <= b)%Z -> Nat.even (Z.to_nat (b * 2) - 1) = false.
Proof.
  intros Hb.
  replace (Z.to_nat (b * 2) - 1)%nat with (1 + 2 * (Z.to_nat b - 1))%nat
    by lia.
  rewrite Nat.even_add_mul_2. reflexivity.
Qed.

(** * Further properties of the geometry *)

(** ** [circle] on any radius *)

(** Whatever the sign of the radius, the abscissa is [radius * cos] and the
    ordinate takes the sign of the sine: a negative radius mirrors the point
    in the vertical axis instead of reflecting it through the centre. *)
Lemma circle_any_radius (radius angle : R) :
  circle radius angle = (radius * cos angle, Rabs radius * sin angle).
Proof.
  unfold circle.
  pose proof (mod_float_range angle) as [Hlo Hhi].
  pose proof (mod_float_cos angle) as Hc.
  pose proof (mod_float_sin angle) as Hs.
  set (t := Py.mod_float angle (2 * PI)) in *.
  cbv zeta. rewrite circle_radicand, Hc, Hs.
  rewrite <- Rsqr_pow2, sqrt_Rsqr_abs, Rabs_mult.
  destruct (Rlt_dec t PI) as [Hlt | Hge]; f_equal; try ring.
  - rewrite (Rabs_pos_eq (sin angle)); [reflexivity |].
    rewrite <- Hs. apply sin_ge_0; lra.
  - rewrite (Rabs_left1 (sin angle)); [ring |].
    rewrite <- Hs. apply sin_le_0; lra.
Qed.

(** X1. For every radius, negative ones included, and every angle,
    [circle] returns [(radius * cos angle, |radius| * sin angle)]: the point
    for [radius] at [angle] is the point for [- radius] at [PI - angle]. *)
Theorem circle_negative_radius_mirrors (radius angle : R) :
  circle radius angle = (radius * cos angle, Rabs radius * sin angle) /\
  circle radius angle = circle (- radius) (PI - angle).
Proof.
  split; [apply circle_any_radius |].
  rewrite !circle_any_radius, Rabs_Ropp, sin_PI_x.
  replace (PI - angle) with (- angle + PI) by ring.
  rewrite neg_cos, cos_neg. f_equal. ring.
Qed.

Lemma circle_on_radius (radius angle : R) :
  fst (circle radius angle) ^ 2 + snd (circle radius angle) ^ 2 = radius ^ 2.
Proof.
  rewrite circle_any_radius. cbn [fst snd].
  pose proof (sin2_cos2 angle) as H. unfold Rsqr in H.
  pose proof (pow2_abs radius) as Ha. nra.
Qed.

(** X2. The point [circle] returns lies on the circle of the given radius:
    [x ^ 2 + y ^ 2 = radius ^ 2], for every radius and angle. *)
Theorem circle_on_circle (radius angle : R) :
  fst (circle radius angle) ^ 2 + snd (circle radius angle) ^ 2 = radius ^ 2.
Proof. apply circle_on_radius. Qed.

Lemma Int_part_shift (x : R) (k : Z) :
  Int_part (x + IZR k) = (Int_part x + k)%Z.
Proof.
  symmetry. apply Int_part_spec.
  destruct (base_Int_part x) as [Hlo Hhi].
  rewrite plus_IZR. lra.
Qed.

Lemma mod_float_period (a : R) (k : Z) :
  Py.mod_float (a + 2 * PI * IZR k) (2 * PI) = Py.mod_float a (2 * PI).
Proof.
  unfold Py.mod_float. pose proof PI_RGT_0 as Hpi.
  replace ((a + 2 * PI * IZR k) / (2 * PI)) with (a / (2 * PI) + IZR k)
    by (field; lra).
  rewrite Int_part_shift, plus_IZR. ring.
Qed.

Lemma circle_period (radius angle : R) (k : Z) :
  circle radius (angle + 2 * PI * IZR k) = circle radius angle.
Proof. unfold circle. rewrite mod_float_period. reflexivity. Qed.

(** X3. [circle] has period [2 * PI] in its angle: whole turns, forwards or
    backwards, do not move the point. *)
Theorem circle_whole_turns (radius angle : R) (k : Z) :
  circle radius (angle + 2 * PI * IZR k) = circle radius angle.
Proof. apply circle_period. Qed.

(** ** [squircle] beyond the rings the application draws *)

Lemma bump_radius_bound (radius width : R) (k : nat) :
  bump_radius radius width k ^ 2 <= (Rabs radius + Rabs width / 2) ^ 2.
Proof.
  unfold bump_radius.
  pose proof (Rabs_pos radius) as Hr0. pose proof (Rabs_pos width) as Hw0.
  pose proof (Rle_abs radius) as Hr1. pose proof (Rle_abs width) as Hw1.
  pose proof (Rle_abs (- radius)) as Hr2.
  pose proof (Rle_abs (- width)) as Hw2.
  rewrite Rabs_Ropp in Hr2, Hw2.
  destruct (Nat.even k); nra.
Qed.

(** X4. With at least one segment and any radius and width, every computed
    point of [squircle] lies on the circle of its inner or outer radius
    ([x ^ 2 + y ^ 2] is the square of that radius, also when the radius is
    negative), and no point of the result, the closing one included, is
    farther than [|radius| + |width| / 2] from the centre. *)
Theorem squircle_vertices_on_circles
    (radius width angle_offset : R) (segments : Z) :
  (1 <= segments)%Z ->
  exists xy : list R * list R,
    squircle radius width angle_offset segments = Ok xy /\
    (forall k : nat,
        (k < Z.to_nat segments)%nat ->
        exists x y : R,
          vertex xy k = Some (x, y) /\
          x ^ 2 + y ^ 2
          = (if Nat.even k then radius - width / 2
             else radius + width / 2) ^ 2) /\
    (forall (k : nat) (x y : R),
        vertex xy k = Some (x, y) ->
        x ^ 2 + y ^ 2 <= (Rabs radius + Rabs width / 2) ^ 2).
Proof.
  intros Hseg.
  pose proof (squircle_closed radius width angle_offset segments Hseg) as Hsq.
  cbv zeta in Hsq. rewrite Hsq. clear Hsq.
  pose proof (ring_points_length radius width angle_offset segments) as Hlen.
  pose proof (ring_points_nth radius width angle_offset segments) as Hnth.
  set (pts := ring_points radius width angle_offset segments) in *.
  assert (Hon : forall k x y,
             nth_error pts k = Some (x, y) ->
             x ^ 2 + y ^ 2 = bump_radius radius width k ^ 2).
  { intros k x y Hk.
    assert (Hlt : (k < Z.to_nat segments)%nat)
      by (rewrite <- Hlen; apply nth_error_Some; congruence).
    rewrite Hnth in Hk by assumption. injection Hk as Hk.
    pose proof (circle_on_radius (bump_radius radius width k)
                  (ring_angle angle_offset segments k)) as Hc.
    rewrite Hk in Hc. exact Hc. }
  eexists. split; [reflexivity |]. split.
  - intros k Hk. rewrite vertex_map, nth_error_app1 by lia.
    destruct (nth_error pts k) as [[x y] |] eqn:Ek.
    + exists x, y. split; [reflexivity |]. apply (Hon k x y Ek).
    + apply nth_error_None in Ek. lia.
  - intros k x y Hv. rewrite vertex_map in Hv.
    destruct (Nat.lt_ge_cases k (length pts)) as [Hlt | Hge].
    + rewrite nth_error_app1 in Hv by assumption.
      rewrite (Hon k x y Hv). apply bump_radius_bound.
    + rewrite nth_error_app2 in Hv by assumption.
      destruct pts as [| p rest]; [cbn in Hlen; lia |].
      cbn [firstn] in Hv.
      destruct (k - length (p :: rest))%nat as [| j] eqn:Ej;
        [| destruct j; discriminate].
      cbn in Hv. injection Hv as ->.
      rewrite (Hon 0%nat x y eq_refl). apply bump_radius_bound.
Qed.

Lemma squircle_vertices_on_circles_witness :
  exists xy : list R * list R,
    squircle 1 3 0 1 = Ok xy /\
    exists x y : R, vertex xy 0 = Some (x, y) /\ x ^ 2 + y ^ 2 = (1 - 3 / 2) ^ 2.
Proof.
  destruct (squircle_vertices_on_circles 1 3 0 1) as [xy [H [Hon _]]];
    [lia |].
  exists xy. split; [exact H |].
  destruct (Hon 0%nat) as [x [y Hxy]]; [cbn; lia |].
  exists x, y. exact Hxy.
Defined.

Lemma squircle_nonpositive (radius width angle_offset : R) (segments : Z) :
  (segments <= 0)%Z ->
  squircle radius width angle_offset segments =
  Raise (if (segments <? -1)%Z then ValueError else IndexError).
Proof.
  intros Hseg.
  destruct (Z.ltb_spec segments (-1)) as [Hlt | Hge].
  - unfold squircle. rewrite linspace_negative by lia. reflexivity.
  - assert (Hcases : segments = 0%Z \/ segments = (-1)%Z) by lia.
    destruct Hcases as [-> | ->]; reflexivity.
Qed.

(** X5. Without a segment [squircle] never returns: for [segments] 0 or -1
    the loop adds nothing and [x[0]] raises [IndexError]; for
    [segments <= -2] [np.linspace] is asked for a negative number of samples
    and raises [ValueError] before the loop. *)
Theorem squircle_error_kinds (radius width angle_offset : R) (segments : Z) :
  (segments <= 0)%Z ->
  squircle radius width angle_offset segments =
  Raise (if (segments <? -1)%Z then ValueError else IndexError).
Proof. apply squircle_nonpositive. Qed.

Lemma squircle_error_kinds_witness :
  squircle 1 (1 / 10) 0 (-1) = Raise IndexError /\
  squircle 1 (1 / 10) 0 (-2) = Raise ValueError.
Proof.
  split.
  - apply (squircle_error_kinds 1 (1 / 10) 0 (-1)). lia.
  - apply (squircle_error_kinds 1 (1 / 10) 0 (-2)). lia.
Defined.

Lemma ring_points_period (radius width angle_offset : R) (segments m : Z) :
  ring_points radius width (angle_offset + 2 * PI * IZR m) segments
  = ring_points radius width angle_offset segments.
Proof.
  unfold ring_points. apply map_ext. intros k.
  replace (ring_angle (angle_offset + 2 * PI * IZR m) segments k)
    with (ring_angle angle_offset segments k + 2 * PI * IZR m)
    by (unfold ring_angle, Rdiv; ring).
  apply circle_period.
Qed.

(** X6. [squircle] has period [2 * PI] in its angular offset: an offset
    moved by whole turns gives the same coordinates, or the same
    exception. *)
Theorem squircle_offset_whole_turns
    (radius width angle_offset : R) (segments m : Z) :
  squircle radius width (angle_offset + 2 * PI * IZR m) segments
  = squircle radius width angle_offset segments.
Proof.
  destruct (Z_lt_le_dec 0 segments) as [Hpos | Hneg].
  - pose proof (squircle_closed radius width angle_offset segments
                  ltac:(lia)) as H1.
    pose proof (squircle_closed radius width
                  (angle_offset + 2 * PI * IZR m) segments ltac:(lia)) as H2.
    cbv zeta in H1, H2. rewrite H1, H2, ring_points_period. reflexivity.
  - rewrite !squircle_nonpositive by assumption. reflexivity.
Qed.

(** * Further properties of the schedule *)

Lemma schedule_value (rot_rings : Z) (rot_offset : R) (offsets : list R)
    (j : nat) :
  Z.even rot_rings = true ->
  (4 <= rot_rings)%Z ->
  offsets_schedule rot_rings rot_offset = Ok offsets ->
  (j < length offsets)%nat ->
  nth j offsets 0
  = rot_offset * INR (Nat.min j (length offsets - j))
    / INR (Z.to_nat (rot_rings / 2) - 1).
Proof.
  intros Heven Hp Hs Hj.
  destruct (schedule_nth rot_rings rot_offset Heven Hp offsets Hs)
    as [Hlen _].
  pose proof (schedule_triangle rot_rings rot_offset Heven Hp offsets j Hs)
    as Ht.
  rewrite <- Hlen in Ht. specialize (Ht Hj).
  apply nth_error_nth with (d := 0) in Ht. exact Ht.
Qed.

(** X7. For an even period of at least 4, going from one ring to the next
    always turns the offset by one step [rot_offset / (period / 2 - 1)]: up
    while the index within the cycle is below [period / 2 - 1], down after
    it, and down once more from the last entry of the schedule back to its
    first. *)
Theorem schedule_neighbours_one_step (rot_rings : Z) (rot_offset : R) :
  Z.even rot_rings = true ->
  (4 <= rot_rings)%Z ->
  exists offsets : list R,
    offsets_schedule rot_rings rot_offset = Ok offsets /\
    forall i : nat,
      let n := length offsets in
      let step := rot_offset / INR (Z.to_nat (rot_rings / 2) - 1) in
      nth (S i mod n) offsets 0 - nth (i mod n) offsets 0
      = if (i mod n <? Z.to_nat (rot_rings / 2) - 1)%nat
        then step else - step.
Proof.
  intros Heven Hp.
  pose proof (offsets_schedule_closed rot_rings rot_offset Heven Hp) as Hc.
  cbv zeta in Hc.
  destruct (schedule_sizes rot_rings Heven Hp) as [Hh Hn].
  destruct (schedule_nth rot_rings rot_offset Heven Hp _ Hc) as [Hlen _].
  pose proof (fun j => schedule_value rot_rings rot_offset _ j Heven Hp Hc)
    as Hv.
  set (offsets := _ ++ _) in *.
  set (h := Z.to_nat (rot_rings / 2)) in *.
  exists offsets. split; [exact Hc |].
  intros i n step. unfold step. clear step.
  assert (Hn2 : n = (2 * (h - 1))%nat) by (unfold n; lia).
  assert (Hj : (i mod n < n)%nat) by (apply Nat.mod_upper_bound; lia).
  assert (Hnext : (S i mod n
                   = if (S (i mod n) <? n)%nat then S (i mod n) else 0)%nat).
  { replace (S i) with (i + 1)%nat by lia.
    rewrite Nat.Div0.add_mod, (Nat.mod_small 1 n) by lia.
    destruct (Nat.ltb_spec (S (i mod n)) n) as [Hlt | Hge].
    - rewrite Nat.mod_small by lia. lia.
    - replace (i mod n + 1)%nat with n by lia. apply Nat.Div0.mod_same. }
  set (j := (i mod n)%nat) in *.
  assert (Hm : INR (h - 1) <> 0) by (apply not_0_INR; lia).
  fold n in Hv. rewrite Hnext.
  destruct (Nat.ltb_spec (S j) n) as [Hlt | Hge].
  - rewrite (Hv j), (Hv (S j)) by lia.
    destruct (Nat.ltb_spec j (h - 1)) as [Hup | Hdown].
    + replace (Nat.min j (n - j)) with j by lia.
      replace (Nat.min (S j) (n - S j)) with (S j) by lia.
      rewrite S_INR. field. assumption.
    + replace (Nat.min j (n - j)) with (S (n - S j)) by lia.
      replace (Nat.min (S j) (n - S j)) with (n - S j)%nat by lia.
      rewrite S_INR. field. assumption.
  - rewrite (Hv j), (Hv 0%nat) by lia.
    destruct (Nat.ltb_spec j (h - 1)) as [Hup | Hdown]; [lia |].
    replace (Nat.min j (n - j)) with 1%nat by lia.
    cbn [Nat.min INR]. field. assumption.
Qed.

Lemma schedule_neighbours_one_step_witness :
  exists offsets : list R,
    offsets_schedule 6 1 = Ok offsets /\
    nth (S 3 mod length offsets) offsets 0
    - nth (3 mod length offsets) offsets 0
    = (if (3 mod length offsets <? Z.to_nat (6 / 2) - 1)%nat
       then 1 / INR (Z.to_nat (6 / 2) - 1)
       else - (1 / INR (Z.to_nat (6 / 2) - 1))).
Proof.
  destruct (schedule_neighbours_one_step 6 1) as [offsets [H Hstep]];
    [reflexivity | lia |].
  exists offsets. split; [exact H | exact (Hstep 3%nat)].
Defined.

(** * Further properties of [redraw] *)

Section RedrawOutcome.

Context {Color Gradient : Type}.
Variables segments num_rings widget_rot_rings : Z.
Variables rot_offset rad_offset bump_size : R.
Variable cmap : R -> Color.
Variable s : AppWindow Color Gradient.

(** Every way [pattern] can end, by the doubled [rot_rings], the number of
    rings and the number of segments. *)
Lemma pattern_outcome :
  let run := pattern segments num_rings (widget_rot_rings * 2) rot_offset
                     rad_offset bump_size cmap s in
  let cleared := mkApp (_controls s) (_gradient s) [] in
  ((widget_rot_rings <= 0)%Z -> run = (Raise ValueError, s)) /\
  ((1 <= widget_rot_rings)%Z -> (num_rings <= 0)%Z ->
   run = (Ok tt, cleared)) /\
  (widget_rot_rings = 1%Z -> (1 <= num_rings)%Z ->
   run = (Raise ZeroDivisionError, cleared)) /\
  ((2 <= widget_rot_rings)%Z -> (1 <= num_rings)%Z -> (segments <= 0)%Z ->
   run = (Raise (if (segments <? -1)%Z then ValueError else IndexError),
          cleared)) /\
  ((2 <= widget_rot_rings)%Z -> (1 <= num_rings)%Z -> (1 <= segments)%Z ->
   fst run = Ok tt /\
   _controls (snd run) = _controls s /\
   _gradient (snd run) = _gradient s /\
   length (ax (snd run)) = Z.to_nat num_rings).
Proof.
  intros run cleared. unfold run, cleared. clear run cleared.
  assert (Hbig : (2 <= widget_rot_rings)%Z ->
            exists offsets : list R,
              offsets_schedule (widget_rot_rings * 2) rot_offset = Ok offsets /\
              length offsets = Z.to_nat (widget_rot_rings * 2 - 2)).
  { intros Hrr.
    assert (Heven : Z.even (widget_rot_rings * 2) = true)
      by (rewrite Z.even_mul; apply orb_true_r).
    assert (Hp : (4 <= widget_rot_rings * 2)%Z) by lia.
    pose proof (offsets_schedule_closed _ rot_offset Heven Hp) as Hc.
    cbv zeta in Hc.
    destruct (schedule_nth _ rot_offset Heven Hp _ Hc) as [Hlen _].
    eexists. split; [exact Hc | exact Hlen]. }
  split; [| split; [| split; [| split]]].
  - intros Hrr. apply pattern_schedule_raises, schedule_negative_size. lia.
  - intros Hrr Hnr.
    destruct (Z.eq_dec widget_rot_rings 1) as [-> | Hne].
    + apply (pattern_no_rings _ _ _ _ _ _ _ []);
        [apply schedule_period_2 | lia].
    + destruct Hbig as [offsets [Hc _]]; [lia |].
      apply (pattern_no_rings _ _ _ _ _ _ _ offsets); [exact Hc | lia].
  - intros -> Hnr.
    apply (pattern_first_ring_raises _ _ _ _ _ _ _ []);
      [apply schedule_period_2 | exact Hnr | reflexivity].
  - intros Hrr Hnr Hseg.
    destruct Hbig as [offsets [Hc Hlen]]; [exact Hrr |].
    apply (pattern_first_ring_raises _ _ _ _ _ _ _ offsets);
      [exact Hc | exact Hnr |].
    rewrite ring_0_squircle by (lia || assumption).
    rewrite squircle_nonpositive by assumption. reflexivity.
  - intros Hrr Hnr Hseg.
    destruct Hbig as [offsets [Hc Hlen]]; [exact Hrr |].
    rewrite (pattern_lines segments num_rings (widget_rot_rings * 2)
               rot_offset rad_offset bump_size cmap offsets);
      [| exact Hseg | lia | exact Hlen | exact Hc].
    cbn [fst snd _controls _gradient ax].
    rewrite length_map, length_seq. repeat split; reflexivity.
Qed.

End RedrawOutcome.

(** X8. The exact precondition of [redraw].  It returns normally when, and
    only when, the colormap can be built and either [rot_rings >= 2] with no
    ring to draw or at least one bump, or [rot_rings = 1] with no ring to
    draw.  [rot_rings], [num_rings] and [num_bumps] are the stored values,
    before doubling. *)
Theorem redraw_returns_iff {Color Gradient : Type}
    (from_list : Gradient -> result (R -> Color))
    (s : AppWindow Color Gradient) :
  let vals := get_values (_controls s) in
  fst (redraw from_list s) = Ok tt <->
  (exists cmap, from_list (_gradient s) = Ok cmap) /\
  (((2 <= rot_rings vals)%Z /\
    ((num_rings vals <= 0)%Z \/ (1 <= num_bumps vals)%Z)) \/
   (rot_rings vals = 1%Z /\ (num_rings vals <= 0)%Z)).
Proof.
  intros vals. rewrite redraw_unfold. fold vals.
  destruct (from_list (_gradient s)) as [cmap | e].
  2:{ split; [discriminate | intros [[c Hc] _]; discriminate]. }
  cbv zeta.
  destruct (pattern_outcome (num_bumps vals * 2) (num_rings vals)
              (rot_rings vals) (rot_offset vals) (rad_offset vals)
              (bump_size vals) cmap s)
    as [Hneg [Hnone [Hzero [Hseg Hok]]]].
  split.
  - intros Hrun. split; [eexists; reflexivity |].
    destruct (Z_le_gt_dec (rot_rings vals) 0) as [H0 | H0];
      [rewrite (Hneg H0) in Hrun; discriminate |].
    destruct (Z_le_gt_dec (num_rings vals) 0) as [Hn | Hn].
    + destruct (Z.eq_dec (rot_rings vals) 1); [right | left]; lia.
    + destruct (Z.eq_dec (rot_rings vals) 1) as [H1 | H1];
        [rewrite (Hzero H1) in Hrun by lia; discriminate |].
      left. split; [lia |]. right.
      destruct (Z_le_gt_dec (num_bumps vals * 2) 0) as [Hb | Hb]; [| lia].
      rewrite Hseg in Hrun by lia. discriminate.
  - intros [_ [[Hrr [Hn | Hb]] | [Hrr Hn]]].
    + rewrite Hnone by lia. reflexivity.
    + destruct (Z_le_gt_dec (num_rings vals) 0) as [Hn | Hn].
      * rewrite Hnone by lia. reflexivity.
      * apply Hok; lia.
    + rewrite Hnone by lia. reflexivity.
Qed.

(** X9. [redraw] never leaves a partial drawing.  When it raises, the axes
    hold what they held before the call (the exception came before
    [ax.clear()]) or nothing at all (it came at the first ring); when it
    returns, they hold exactly [num_rings] lines, none for a count below 1.
    The panel and the gradient are as before in every case. *)
Theorem redraw_all_or_nothing {Color Gradient : Type}
    (from_list : Gradient -> result (R -> Color))
    (s : AppWindow Color Gradient) :
  let after := snd (redraw from_list s) in
  (forall e, fst (redraw from_list s) = Raise e ->
             ax after = ax s \/ ax after = []) /\
  (fst (redraw from_list s) = Ok tt ->
   length (ax after) = Z.to_nat (num_rings (get_values (_controls s)))) /\
  _controls after = _controls s /\
  _gradient after = _gradient s.
Proof.
  intros after. unfold after. clear after.
  rewrite redraw_unfold.
  destruct (from_list (_gradient s)) as [cmap | e0].
  2:{ cbn [fst snd]. repeat split; try reflexivity.
      - intros e _. left. reflexivity.
      - discriminate. }
  cbv zeta. set (vals := get_values (_controls s)).
  destruct (pattern_outcome (num_bumps vals * 2) (num_rings vals)
              (rot_rings vals) (rot_offset vals) (rad_offset vals)
              (bump_size vals) cmap s)
    as [Hneg [Hnone [Hzero [Hseg Hok]]]].
  destruct (Z_le_gt_dec (rot_rings vals) 0) as [H0 | H0].
  { rewrite (Hneg H0). cbn [fst snd]. repeat split; try reflexivity.
    - intros e _. left. reflexivity.
    - discriminate. }
  destruct (Z_le_gt_dec (num_rings vals) 0) as [Hn | Hn].
  { rewrite Hnone by lia. cbn [fst snd ax _controls _gradient length].
    repeat split; try reflexivity.
    - discriminate.
    - intros _. lia. }
  destruct (Z.eq_dec (rot_rings vals) 1) as [H1 | H1].
  { rewrite (Hzero H1) by lia. cbn [fst snd ax _controls _gradient].
    repeat split; try reflexivity.
    - intros e _. right. reflexivity.
    - discriminate. }
  destruct (Z_le_gt_dec (num_bumps vals * 2) 0) as [Hb | Hb].
  { rewrite Hseg by lia. cbn [fst snd ax _controls _gradient].
    repeat split; try reflexivity.
    - intros e _. right. reflexivity.
    - discriminate. }
  destruct Hok as [Hfst [Hc [Hg Hlen]]]; [lia | lia | lia |].
  split; [| split; [| split]].
  - intros e He. rewrite Hfst in He. discriminate.
  - intros _. exact Hlen.
  - exact Hc.
  - exact Hg.
Qed.

(** * Further properties of the control panel *)

Section PanelRanges.

Context {Color Gradient : Type}.
Variable from_list : Gradient -> result (R -> Color).

Lemma PI_gt_3 : 3 < PI.
Proof. pose proof PI2_3_2. lra. Qed.

Lemma dbound_range (lo v hi : R) :
  lo <= hi -> lo <= Qt.dbound lo v hi <= hi.
Proof.
  intros H. unfold Qt.dbound, Rmax, Rmin.
  destruct (Rle_dec hi v); destruct (Rle_dec lo _); lra.
Qed.

Lemma dbound_inside (lo v hi : R) :
  lo <= v <= hi -> Qt.dbound lo v hi = v.
Proof.
  intros H. unfold Qt.dbound, Rmax, Rmin.
  destruct (Rle_dec hi v); destruct (Rle_dec lo _); lra.
Qed.

Lemma panel_synced_init : panel_synced (ControlPanel_init initial_vals).
Proof.
  pose proof PI_gt_3 as Hpi.
  unfold panel_synced, vals_in_range, shown, ControlPanel_init, initial_vals,
    Qt.setValue, Qt.setMinimum, Qt.setValueD, Qt.setMinimumD, Qt.setRangeD,
    Qt.newSpinBox, Qt.newDoubleSpinBox, Qt.bound.
  cbn [_vals _num_bumps _num_rings _rot_rings _rot_offset _rad_offset
       _bump_size num_bumps num_rings rot_rings rot_offset rad_offset
       bump_size Qt.minimum Qt.maximum Qt.value
       Qt.dminimum Qt.dmaximum Qt.dvalue].
  rewrite (Rmax_right (1 / 100) (9999 / 100)) by lra.
  rewrite (Rmax_right (1 / 100) (9999 / 100)) by lra.
  rewrite (Rmax_right 0 (2 * PI)) by lra.
  rewrite !dbound_inside by lra.
  repeat split; try lia; lra.
Qed.

(** An edit keeps any property of the panel that holds both for the panel
    with the widget set and for that panel after [update]. *)
Lemma edit_spin_keeps (P : ControlPanel -> Prop)
    (w : ControlPanel -> Qt.QSpinBox)
    (store : Qt.QSpinBox -> ControlPanel -> ControlPanel) (v : Z)
    (s : AppWindow Color Gradient) :
  ((Qt.value (Qt.setValue v (w (_controls s))) = Qt.value (w (_controls s)))
   -> P (store (Qt.setValue v (w (_controls s))) (_controls s))) ->
  P (update (store (Qt.setValue v (w (_controls s))) (_controls s))) ->
  P (_controls (snd (edit_spin Color Gradient from_list w store v s))).
Proof.
  intros H1 H2. unfold edit_spin. cbv zeta.
  destruct (Z.eqb_spec (Qt.value (Qt.setValue v (w (_controls s))))
                       (Qt.value (w (_controls s)))) as [E | _];
    [exact (H1 E) |].
  destruct (redraw_keeps_inputs from_list
              (with_controls Color Gradient
                 (update (store (Qt.setValue v (w (_controls s)))
                                (_controls s))) s)) as [Hc _].
  rewrite Hc. exact H2.
Qed.

Lemma edit_dspin_keeps (P : ControlPanel -> Prop)
    (w : ControlPanel -> Qt.QDoubleSpinBox)
    (store : Qt.QDoubleSpinBox -> ControlPanel -> ControlPanel) (v : R)
    (s : AppWindow Color Gradient) :
  ((Qt.dvalue (Qt.setValueD v (w (_controls s)))
    = Qt.dvalue (w (_controls s)))
   -> P (store (Qt.setValueD v (w (_controls s))) (_controls s))) ->
  P (update (store (Qt.setValueD v (w (_controls s))) (_controls s))) ->
  P (_controls (snd (edit_dspin Color Gradient from_list w store v s))).
Proof.
  intros H1 H2. unfold edit_dspin. cbv zeta.
  destruct (Req_dec_T (Qt.dvalue (Qt.setValueD v (w (_controls s))))
                      (Qt.dvalue (w (_controls s)))) as [E | _];
    [exact (H1 E) |].
  destruct (redraw_keeps_inputs from_list
              (with_controls Color Gradient
                 (update (store (Qt.setValueD v (w (_controls s)))
                                (_controls s))) s)) as [Hc _].
  rewrite Hc. exact H2.
Qed.

Ltac open_panel :=
  unfold panel_synced, vals_in_range, shown, update, store_num_bumps,
    store_num_rings, store_rot_rings, store_rot_offset, store_rad_offset,
    store_bump_size, Qt.setValue, Qt.setValueD, Qt.bound in *;
  cbn [_vals _num_bumps _num_rings _rot_rings _rot_offset _rad_offset
       _bump_size num_bumps num_rings rot_rings rot_offset rad_offset
       bump_size Qt.minimum Qt.maximum Qt.value
       Qt.dminimum Qt.dmaximum Qt.dvalue] in *.

Ltac close_panel :=
  repeat split; try reflexivity; try lia; try lra;
  try (f_equal; first [lia | lra | congruence]).

Lemma handle_panel_synced (e : event Gradient)
    (s : AppWindow Color Gradient) :
  panel_synced (_controls s) ->
  panel_synced (_controls (snd (handle from_list e s))).
Proof.
  intros H. pose proof PI_gt_3 as Hpi.
  destruct e as [v | v | v | v | v | v | g |]; cbn [handle].
  1-3: apply edit_spin_keeps; [intros E |];
    destruct (_controls s)
      as [vals [nbl nbh nbv] [nrl nrh nrv] [rrl rrh rrv]
               [rol roh rov] [ral rah rav] [bsl bsh bsv]];
    open_panel;
    destruct H as [[? ?] [[? ?] [[? ?] [[? ?] [[? ?] [[? ?] [Hv Hr]]]]]]];
    subst; cbn [num_bumps num_rings rot_rings rot_offset rad_offset bump_size]
      in *; close_panel.
  1-3: apply edit_dspin_keeps; [intros E |];
    destruct (_controls s)
      as [vals [nbl nbh nbv] [nrl nrh nrv] [rrl rrh rrv]
               [rol roh rov] [ral rah rav] [bsl bsh bsv]];
    open_panel;
    destruct H as [[? ?] [[? ?] [[? ?] [[? ?] [[? ?] [[? ?] [Hv Hr]]]]]]];
    subst; cbn [num_bumps num_rings rot_rings rot_offset rad_offset bump_size]
      in *;
    pose proof (dbound_range 0 v (2 * PI) ltac:(lra));
    pose proof (dbound_range (1 / 100) v (9999 / 100) ltac:(lra));
    close_panel.
  - destruct (redraw_keeps_inputs from_list
                (mkApp (_controls s) g (ax s))) as [Hc _].
    rewrite Hc. exact H.
  - exact H.
Qed.

Lemma reachable_panel_synced (s : AppWindow Color Gradient) :
  reachable from_list s -> panel_synced (_controls s).
Proof.
  induction 1 as [g0 | e s Hs IH].
  - unfold AppWindow_init.
    destruct (redraw_keeps_inputs from_list
                (mkApp (ControlPanel_init initial_vals) g0 [])) as [Hc _].
    rewrite Hc. apply panel_synced_init.
  - apply handle_panel_synced. exact IH.
Qed.

End PanelRanges.

(** X10. In every window the running application can reach, the stored
    dictionary is exactly what the six widgets show, and every value lies
    in its widget's range: [num_bumps] and [rot_rings] in 2..99,
    [num_rings] in 1..99, [rot_offset] in [[0, 2 * PI]], [rad_offset] and
    [bump_size] in [[0.01, 99.99]]. *)
Theorem gui_values_in_range {Color Gradient : Type}
    (from_list : Gradient -> result (R -> Color))
    (s : AppWindow Color Gradient) :
  reachable from_list s ->
  let vals := get_values (_controls s) in
  num_bumps vals = Qt.value (_num_bumps (_controls s)) /\
  num_rings vals = Qt.value (_num_rings (_controls s)) /\
  rot_rings vals = Qt.value (_rot_rings (_controls s)) /\
  rot_offset vals = Qt.dvalue (_rot_offset (_controls s)) /\
  rad_offset vals = Qt.dvalue (_rad_offset (_controls s)) /\
  bump_size vals = Qt.dvalue (_bump_size (_controls s)) /\
  (2 <= num_bumps vals <= 99)%Z /\
  (1 <= num_rings vals <= 99)%Z /\
  (2 <= rot_rings vals <= 99)%Z /\
  0 <= rot_offset vals <= 2 * PI /\
  1 / 100 <= rad_offset vals <= 9999 / 100 /\
  1 / 100 <= bump_size vals <= 9999 / 100.
Proof.
  intros Hreach vals.
  destruct (reachable_panel_synced from_list s Hreach)
    as [_ [_ [_ [_ [_ [_ [Hshown Hrange]]]]]]].
  unfold vals, get_values. rewrite Hshown at 1 2 3 4 5 6.
  cbn [shown num_bumps num_rings rot_rings rot_offset rad_offset bump_size].
  repeat (split; [reflexivity |]). exact Hrange.
Qed.

Lemma gui_values_in_range_witness :
  let from_list := fun _ : unit => Ok (fun _ : R => tt) in
  let s := snd (handle from_list (EditBumpSize unit 1000)
                  (snd (AppWindow_init from_list tt))) in
  reachable from_list s /\
  bump_size (get_values (_controls s)) <= 9999 / 100.
Proof.
  intros from_list s.
  assert (Hs : reachable from_list s)
    by (apply reach_event, reach_init).
  split; [exact Hs |].
  destruct (gui_values_in_range from_list s Hs)
    as [_ [_ [_ [_ [_ [_ [_ [_ [_ [_ [_ [_ H]]]]]]]]]]]].
  exact H.
Defined.

Lemma init_widget_ranges (vals : Vals) :
  let c := ControlPanel_init vals in
  Qt.value (_num_bumps c) = Z.max 2 (Z.min 99 (num_bumps vals)) /\
  Qt.value (_num_rings c) = Z.max 1 (Z.min 99 (num_rings vals)) /\
  Qt.value (_rot_rings c) = Z.max 2 (Z.min 99 (rot_rings vals)) /\
  Qt.dvalue (_rot_offset c) = Qt.dbound 0 (rot_offset vals) (2 * PI) /\
  Qt.dvalue (_rad_offset c)
  = Qt.dbound (1 / 100) (rad_offset vals) (9999 / 100) /\
  Qt.dvalue (_bump_size c)
  = Qt.dbound (1 / 100) (bump_size vals) (9999 / 100).
Proof.
  pose proof PI_RGT_0 as Hpi.
  unfold ControlPanel_init, Qt.setValue, Qt.setMinimum, Qt.setValueD,
    Qt.setMinimumD, Qt.setRangeD, Qt.newSpinBox, Qt.newDoubleSpinBox,
    Qt.bound.
  cbn [_num_bumps _num_rings _rot_rings _rot_offset _rad_offset _bump_size
       Qt.minimum Qt.maximum Qt.value Qt.dminimum Qt.dmaximum Qt.dvalue].
  rewrite (Rmax_right (1 / 100) (9999 / 100)) by lra.
  rewrite (Rmax_right (1 / 100) (9999 / 100)) by lra.
  rewrite (Rmax_right 0 (2 * PI)) by lra.
  repeat split; reflexivity.
Qed.

(** X11. [ControlPanel.__init__] stores the dictionary it is given without
    bounding it, while the widgets bound what they show; [update] stores
    what the widgets show.  So a panel built from any dictionary reports it
    unchanged; after [update] it reports values inside the widget ranges;
    and each of the three integer values is then the given one when that
    was inside its range already. *)
Theorem panel_bounds_on_update (vals : Vals) :
  get_values (ControlPanel_init vals) = vals /\
  (let v := get_values (update (ControlPanel_init vals)) in
   (2 <= num_bumps v <= 99)%Z /\
   (1 <= num_rings v <= 99)%Z /\
   (2 <= rot_rings v <= 99)%Z /\
   0 <= rot_offset v <= 2 * PI /\
   1 / 100 <= rad_offset v <= 9999 / 100 /\
   1 / 100 <= bump_size v <= 9999 / 100) /\
  (let v := get_values (update (ControlPanel_init vals)) in
   ((2 <= num_bumps vals <= 99)%Z -> num_bumps v = num_bumps vals) /\
   ((1 <= num_rings vals <= 99)%Z -> num_rings v = num_rings vals) /\
   ((2 <= rot_rings vals <= 99)%Z -> rot_rings v = rot_rings vals)).
Proof.
  pose proof PI_RGT_0 as Hpi.
  destruct (init_widget_ranges vals) as [Hb [Hr [Hp [Ho [Ha Hs]]]]].
  cbv zeta in *.
  split; [reflexivity |]. split.
  - unfold get_values, update.
    cbn [_vals num_bumps num_rings rot_rings rot_offset rad_offset bump_size].
    rewrite Hb, Hr, Hp, Ho, Ha, Hs.
    pose proof (dbound_range 0 (rot_offset vals) (2 * PI) ltac:(lra)).
    pose proof (dbound_range (1 / 100) (rad_offset vals) (9999 / 100)
                  ltac:(lra)).
    pose proof (dbound_range (1 / 100) (bump_size vals) (9999 / 100)
                  ltac:(lra)).
    repeat split; try lia; lra.
  - unfold get_values, update.
    cbn [_vals num_bumps num_rings rot_rings].
    rewrite Hb, Hr, Hp. repeat split; lia.
Qed.

Lemma panel_bounds_on_update_witness :
  num_bumps (get_values (update (ControlPanel_init initial_vals)))
  = num_bumps initial_vals.
Proof.
  destruct (panel_bounds_on_update initial_vals) as [_ [_ [H _]]].
  apply H. cbn. lia.
Defined.

(** * The color strings *)

Section HexDigits.

Lemma hex_value_digit (d : Z) :
  (0 <= d < 16)%Z -> Hex.value (Hex.digit d) = Some d.
Proof.
  intros Hd.
  assert (H : (d = 0 \/ d = 1 \/ d = 2 \/ d = 3 \/ d = 4 \/ d = 5 \/ d = 6
               \/ d = 7 \/ d = 8 \/ d = 9 \/ d = 10 \/ d = 11 \/ d = 12
               \/ d = 13 \/ d = 14 \/ d = 15)%Z) by lia.
  repeat (destruct H as [-> | H]; [reflexivity |]). subst d. reflexivity.
Qed.

Lemma hex_value_range (c : ascii) (d : Z) :
  Hex.value c = Some d -> (0 <= d < 16)%Z.
Proof.
  unfold Hex.value. cbv zeta.
  set (k := Z.of_nat (nat_of_ascii c)).
  destruct (Z.leb_spec 48 k); destruct (Z.leb_spec k 57); cbn [andb];
    try (intros [= <-]; lia);
    destruct (Z.leb_spec 65 k); destruct (Z.leb_spec k 70); cbn [andb];
    try (intros [= <-]; lia);
    destruct (Z.leb_spec 97 k); destruct (Z.leb_spec k 102); cbn [andb];
    try (intros [= <-]; lia); discriminate.
Qed.

Lemma hex_fold_app (l1 l2 : list ascii) :
  forall acc : Z,
    Hex.fold acc (l1 ++ l2) =
    match Hex.fold acc l1 with
    | Some a => Hex.fold a l2
    | None => None
    end.
Proof.
  induction l1 as [| c l1 IH]; intros acc; cbn [app Hex.fold];
    [reflexivity |].
  destruct (Hex.value c); [apply IH | reflexivity].
Qed.

Lemma hex_fold_nonneg (s : list ascii) :
  forall acc n : Z, (0 <= acc)%Z -> Hex.fold acc s = Some n -> (0 <= n)%Z.
Proof.
  induction s as [| c s IH]; intros acc n Hacc; cbn [Hex.fold].
  - intros [= <-]. exact Hacc.
  - destruct (Hex.value c) as [d |] eqn:Ed; [| discriminate].
    apply hex_value_range in Ed. apply IH. lia.
Qed.

(** Reading back [k] digits of [n]. *)
Lemma hex_fold_fixed (k : nat) :
  forall acc n : Z,
    (0 <= n < 16 ^ Z.of_nat k)%Z ->
    Hex.fold acc (Hex.fixed k n) = Some (acc * 16 ^ Z.of_nat k + n)%Z.
Proof.
  induction k as [| k IH]; intros acc n Hn.
  - cbn in *. f_equal. lia.
  - rewrite Nat2Z.inj_succ, Z.pow_succ_r in * by lia.
    cbn [Hex.fixed]. rewrite hex_fold_app, IH
      by (split; [apply Z.div_pos; lia | apply Z.div_lt_upper_bound; lia]).
    cbn [Hex.fold].
    rewrite hex_value_digit by (apply Z.mod_pos_bound; lia).
    f_equal. pose proof (Z.div_mod n 16 ltac:(lia)). lia.
Qed.

Lemma hex_fixed_zero (k : nat) : Hex.fixed k 0 = repeat "0"%char k.
Proof.
  induction k as [| k IH]; [reflexivity |].
  cbn [Hex.fixed]. change (0 / 16)%Z with 0%Z. rewrite IH.
  change [Hex.digit (0 mod 16)] with ["0"%char].
  rewrite <- repeat_cons. reflexivity.
Qed.

(** Padding the digits of [n] with zeros gives its fixed-width form. *)
Lemma hex_pad_digits (k : nat) :
  forall (fuel : nat) (n : Z),
    (0 <= n < 16 ^ Z.of_nat (S k))%Z ->
    (n < 16 ^ Z.of_nat (S fuel))%Z ->
    Hex.zero_pad (S k) (Hex.digits (S fuel) n) = Hex.fixed (S k) n.
Proof.
  induction k as [| k IH]; intros fuel n Hn Hfuel;
    cbn [Hex.digits]; destruct (Z.ltb_spec n 16) as [Hlt | Hge].
  - cbn [Hex.fixed app]. rewrite Z.mod_small by lia. reflexivity.
  - change (16 ^ Z.of_nat 1)%Z with 16%Z in Hn. lia.
  - unfold Hex.zero_pad. cbn [length Nat.sub].
    rewrite ?Nat.sub_0_r.
    change (Hex.fixed (S (S k)) n)
      with (Hex.fixed (S k) (n / 16) ++ [Hex.digit (n mod 16)]).
    rewrite Z.div_small, Z.mod_small by lia.
    rewrite hex_fixed_zero. reflexivity.
  - destruct fuel as [| fuel];
      [change (16 ^ Z.of_nat 1)%Z with 16%Z in Hfuel; lia |].
    change (Hex.fixed (S (S k)) n)
      with (Hex.fixed (S k) (n / 16) ++ [Hex.digit (n mod 16)]).
    rewrite <- (IH fuel (n / 16)%Z).
    + unfold Hex.zero_pad. rewrite length_app. cbn [length].
      replace (S (S k) - (length (Hex.digits (S fuel) (n / 16)) + 1))%nat
        with (S k - length (Hex.digits (S fuel) (n / 16)))%nat by lia.
      rewrite app_assoc. reflexivity.
    + rewrite Nat2Z.inj_succ, Z.pow_succ_r in Hn by lia.
      split; [apply Z.div_pos; lia | apply Z.div_lt_upper_bound; lia].
    + rewrite Nat2Z.inj_succ, Z.pow_succ_r in Hfuel by lia.
      apply Z.div_lt_upper_bound; lia.
Qed.

Lemma hex_fuel_enough (n : Z) :
  (0 <= n)%Z -> (n < 16 ^ Z.of_nat (S (Z.to_nat (Z.log2 n))))%Z.
Proof.
  intros Hn.
  rewrite Nat2Z.inj_succ, Z2Nat.id by apply Z.log2_nonneg.
  destruct (Z.eq_dec n 0) as [-> | Hne].
  - cbn. lia.
  - destruct (Z.log2_spec n ltac:(lia)) as [_ Hhi].
    apply Z.lt_le_trans with (1 := Hhi).
    apply Z.pow_le_mono_l. lia.
Qed.

(** Eight digits for a value below [2 ^ 32]. *)
Lemma format_08X_fixed (n : Z) :
  (0 <= n < 4294967296)%Z -> Hex.format_08X n = Hex.fixed 8 n.
Proof.
  intros Hn. unfold Hex.format_08X, Hex.format_X.
  destruct (Z.ltb_spec n 0); [lia |].
  apply hex_pad_digits; [| apply hex_fuel_enough; lia].
  change (16 ^ Z.of_nat 8)%Z with 4294967296%Z. exact Hn.
Qed.

(** The digits of [a * 16 ^ m + b] are those of [a] followed by the [m]
    digits of [b]. *)
Lemma hex_fixed_app (k m : nat) :
  forall a b : Z,
    (0 <= b < 16 ^ Z.of_nat m)%Z ->
    Hex.fixed (k + m) (a * 16 ^ Z.of_nat m + b)
    = Hex.fixed k a ++ Hex.fixed m b.
Proof.
  induction m as [| m IH]; intros a b Hb.
  - cbn in Hb. rewrite Nat.add_0_r, app_nil_r. f_equal. cbn. lia.
  - rewrite Nat.add_succ_r. cbn [Hex.fixed].
    rewrite Nat2Z.inj_succ, Z.pow_succ_r in * by lia.
    replace ((a * (16 * 16 ^ Z.of_nat m) + b) / 16)%Z
      with (a * 16 ^ Z.of_nat m + b / 16)%Z.
    2:{ apply Z.div_unique with (r := (b mod 16)%Z);
          [left; apply Z.mod_pos_bound; lia |].
        pose proof (Z.div_mod b 16 ltac:(lia)). lia. }
    replace ((a * (16 * 16 ^ Z.of_nat m) + b) mod 16)%Z with (b mod 16)%Z.
    2:{ symmetry.
        replace (a * (16 * 16 ^ Z.of_nat m) + b)%Z
          with (b + (a * 16 ^ Z.of_nat m) * 16)%Z by lia.
        apply Z.mod_add. lia. }
    rewrite IH, app_assoc; [reflexivity |].
    split; [apply Z.div_pos; lia | apply Z.div_lt_upper_bound; lia].
Qed.

End HexDigits.

(** The three low bytes of an opaque RGB value. *)
Lemma rgb_channels (r g b : Z) :
  (0 <= r <= 255)%Z -> (0 <= g <= 255)%Z -> (0 <= b <= 255)%Z ->
  let n := (4278190080 + r * 65536 + g * 256 + b)%Z in
  (0 <= n < 4294967296)%Z /\
  ((n / 65536) mod 256 = r /\ (n / 256) mod 256 = g /\ n mod 256 = b)%Z.
Proof.
  intros Hr Hg Hb n. unfold n. split; [lia |].
  repeat split; Z.to_euclidean_division_equations; lia.
Qed.

Section ColorCodeFacts.

Variable QColor_rgb_big : Z -> Z -> Z -> outcome Z.
Variable fromRgb_big : Z -> outcome (Z * Z * Z).
Variable int16_other : list ascii -> result Z.

Lemma int_of_float_nonneg (x : R) : 0 <= x -> int_of_float x = Int_part x.
Proof.
  intros Hx. unfold int_of_float.
  destruct (Rle_dec 0 x); [reflexivity | contradiction].
Qed.

Lemma Int_part_IZR (k : Z) : Int_part (IZR k) = k.
Proof. symmetry. apply Int_part_spec. lra. Qed.

(** Rounding a channel in [[0, 1]] down to a multiple of 1/255. *)
Lemma channel_of_unit (x : R) :
  0 <= x <= 1 ->
  (0 <= Int_part (x * 255) <= 255)%Z /\
  x - 1 / 255 < quantised x <= x.
Proof.
  intros Hx. unfold quantised.
  destruct (base_Int_part (x * 255)) as [Hlo Hhi].
  split; [split |].
  - apply Z.lt_succ_r. rewrite <- Z.add_1_r. apply lt_IZR.
    rewrite plus_IZR. lra.
  - apply le_IZR. lra.
  - split; lra.
Qed.

Lemma hex_fixed_length (k : nat) : forall n, length (Hex.fixed k n) = k.
Proof.
  induction k as [| k IH]; intros n; [reflexivity |].
  cbn [Hex.fixed]. rewrite length_app, IH. cbn. lia.
Qed.

Lemma int16_plain (s : list ascii) (n : Z) :
  s <> [] -> Hex.fold 0 s = Some n -> int16 int16_other s = Ok n.
Proof.
  intros Hs Hf. unfold int16. destruct s as [| c s]; [contradiction |].
  rewrite Hf. reflexivity.
Qed.

(** Decoding looks at what follows the first character only, and there at
    the three low bytes. *)
Lemma from_gradient_plain (c0 : ascii) (ds : list ascii) (n : Z) :
  ds <> [] ->
  Hex.fold 0 ds = Some n ->
  (n < 4294967296)%Z ->
  from_gradient fromRgb_big int16_other (c0 :: ds)
  = inr (IZR ((n / 65536) mod 256) / 255, IZR ((n / 256) mod 256) / 255,
         IZR (n mod 256) / 255, 1%Z).
Proof.
  intros Hds Hf Hn.
  pose proof (hex_fold_nonneg ds 0 n ltac:(lia) Hf) as Hn0.
  unfold from_gradient. cbn [tl].
  rewrite (int16_plain ds n Hds Hf). unfold QColor_fromRgb.
  destruct (Z.leb_spec 0 n); [| lia].
  destruct (Z.ltb_spec n 4294967296); [| lia].
  reflexivity.
Qed.

(** Encoding three channels inside 0..255. *)
Lemma to_gradient_channels (red green blue : R) (r g b : Z) :
  int_of_float (red * 255) = r ->
  int_of_float (green * 255) = g ->
  int_of_float (blue * 255) = b ->
  (0 <= r <= 255)%Z -> (0 <= g <= 255)%Z -> (0 <= b <= 255)%Z ->
  to_gradient QColor_rgb_big red green blue
  = inr ("#"%char :: Hex.fixed 2 255 ++ Hex.fixed 2 r ++ Hex.fixed 2 g
                   ++ Hex.fixed 2 b) /\
  Hex.fixed 2 255 ++ Hex.fixed 2 r ++ Hex.fixed 2 g ++ Hex.fixed 2 b
  = Hex.fixed 8 (4278190080 + r * 65536 + g * 256 + b).
Proof.
  intros Er Eg Eb Hr Hg Hb.
  assert (Hfix : Hex.fixed 2 255 ++ Hex.fixed 2 r ++ Hex.fixed 2 g
                 ++ Hex.fixed 2 b
                 = Hex.fixed 8 (4278190080 + r * 65536 + g * 256 + b)).
  { replace (4278190080 + r * 65536 + g * 256 + b)%Z
      with (((255 * 16 ^ Z.of_nat 2 + r) * 16 ^ Z.of_nat 2 + g)
            * 16 ^ Z.of_nat 2 + b)%Z
      by (change (16 ^ Z.of_nat 2)%Z with 256%Z; lia).
    change 8%nat with (6 + 2)%nat.
    rewrite hex_fixed_app by (change (16 ^ Z.of_nat 2)%Z with 256%Z; lia).
    change 6%nat with (4 + 2)%nat.
    rewrite hex_fixed_app by (change (16 ^ Z.of_nat 2)%Z with 256%Z; lia).
    change 4%nat with (2 + 2)%nat.
    rewrite hex_fixed_app by (change (16 ^ Z.of_nat 2)%Z with 256%Z; lia).
    rewrite <- !app_assoc. reflexivity. }
  split; [| exact Hfix].
  unfold to_gradient, QColor_rgb, c_int, channel. rewrite Er, Eg, Eb.
  repeat match goal with
         | |- context [(?a <=? ?b)%Z] =>
             destruct (Z.leb_spec a b); [| lia]
         end.
  cbn [andb]. rewrite format_08X_fixed by lia. rewrite Hfix. reflexivity.
Qed.

End ColorCodeFacts.

Section ColorRoundTrips.

Variable QColor_rgb_big : Z -> Z -> Z -> outcome Z.
Variable fromRgb_big : Z -> outcome (Z * Z * Z).
Variable int16_other : list ascii -> result Z.

Lemma from_gradient_fixed (c0 : ascii) (r g b : Z) :
  (0 <= r <= 255)%Z -> (0 <= g <= 255)%Z -> (0 <= b <= 255)%Z ->
  from_gradient fromRgb_big int16_other
    (c0 :: Hex.fixed 8 (4278190080 + r * 65536 + g * 256 + b))
  = inr (IZR r / 255, IZR g / 255, IZR b / 255, 1%Z).
Proof.
  intros Hr Hg Hb.
  destruct (rgb_channels r g b Hr Hg Hb) as [Hn [Er [Eg Eb]]].
  cbv zeta in *.
  set (n := (4278190080 + r * 65536 + g * 256 + b)%Z) in *.
  rewrite (from_gradient_plain fromRgb_big int16_other c0 (Hex.fixed 8 n) n).
  - rewrite Er, Eg, Eb. reflexivity.
  - intros E. apply (f_equal (@length ascii)) in E.
    rewrite hex_fixed_length in E. discriminate.
  - rewrite hex_fold_fixed
      by (change (16 ^ Z.of_nat 8)%Z with 4294967296%Z; lia).
    f_equal; lia.
  - lia.
Qed.

(** Channels in [[0, 1]]: the string and what it decodes to. *)
Lemma encode_decode_unit (red green blue : R) :
  0 <= red <= 1 -> 0 <= green <= 1 -> 0 <= blue <= 1 ->
  let code :=
    ("#" :: "F" :: "F" :: Hex.fixed 2 (Int_part (red * 255))
         ++ Hex.fixed 2 (Int_part (green * 255))
         ++ Hex.fixed 2 (Int_part (blue * 255)))%char in
  to_gradient QColor_rgb_big red green blue = inr code /\
  from_gradient fromRgb_big int16_other code
  = inr (quantised red, quantised green, quantised blue, 1%Z).
Proof.
  intros Hr Hg Hb code.
  destruct (channel_of_unit red Hr) as [Hcr _].
  destruct (channel_of_unit green Hg) as [Hcg _].
  destruct (channel_of_unit blue Hb) as [Hcb _].
  destruct (to_gradient_channels QColor_rgb_big red green blue
              (Int_part (red * 255)) (Int_part (green * 255))
              (Int_part (blue * 255))) as [Hto Hfix];
    try (apply int_of_float_nonneg; lra); try assumption.
  change (Hex.fixed 2 255) with ["F"; "F"]%char in Hto, Hfix.
  split; [exact Hto |].
  unfold code. change ("F" :: "F" :: ?l)%char with (["F"; "F"]%char ++ l).
  rewrite Hfix. apply from_gradient_fixed; assumption.
Qed.

End ColorRoundTrips.

(** X12. Encoding then decoding a color.  For channels in [[0, 1]]
    [to_gradient] returns ['#'], ['FF'], then two digits for each of
    [int(c * 255)], and [from_gradient] reads that string back as the three
    channels rounded down to multiples of 1/255, with 1 as fourth
    component: each channel comes back at most 1/255 below what went in.
    Nothing is raised. *)
Theorem gradient_encode_decode
    (QColor_rgb_big : Z -> Z -> Z -> outcome Z)
    (fromRgb_big : Z -> outcome (Z * Z * Z))
    (int16_other : list ascii -> result Z)
    (red green blue : R) :
  0 <= red <= 1 -> 0 <= green <= 1 -> 0 <= blue <= 1 ->
  exists code : list ascii,
    to_gradient QColor_rgb_big red green blue = inr code /\
    code = ("#" :: "F" :: "F" :: Hex.fixed 2 (Int_part (red * 255))
                ++ Hex.fixed 2 (Int_part (green * 255))
                ++ Hex.fixed 2 (Int_part (blue * 255)))%char /\
    length code = 9%nat /\
    from_gradient fromRgb_big int16_other code
    = inr (quantised red, quantised green, quantised blue, 1%Z) /\
    red - 1 / 255 < quantised red <= red /\
    green - 1 / 255 < quantised green <= green /\
    blue - 1 / 255 < quantised blue <= blue.
Proof.
  intros Hr Hg Hb.
  destruct (encode_decode_unit QColor_rgb_big fromRgb_big int16_other
              red green blue Hr Hg Hb) as [Hto Hfrom].
  cbv zeta in *. eexists. split; [exact Hto |].
  split; [reflexivity |].
  split; [cbn [length]; rewrite !length_app, !hex_fixed_length; reflexivity |].
  split; [exact Hfrom |].
  split; [apply channel_of_unit; exact Hr |].
  split; [apply channel_of_unit; exact Hg | apply channel_of_unit; exact Hb].
Qed.

Lemma gradient_encode_decode_witness :
  exists code : list ascii,
    to_gradient (fun _ _ _ => inl Binding) 1 0 (1 / 2) = inr code /\
    length code = 9%nat.
Proof.
  destruct (gradient_encode_decode (fun _ _ _ => inl Binding)
              (fun _ => inl Binding) (fun _ => Raise ValueError)
              1 0 (1 / 2))
    as [code [H [_ [Hlen _]]]]; [lra | lra | lra |].
  exists code. split; [exact H | exact Hlen].
Defined.

(** X13. A channel outside 0..255 blackens the color.  When the three
    [int(c * 255)] fit a C [int] but one of them is not in 0..255, the
    [QColor] is invalid and [to_gradient] returns ['#FF000000'], whatever
    the other channels are; [from_gradient] reads it as (0, 0, 0, 1). *)
Theorem to_gradient_out_of_range_is_black
    (QColor_rgb_big : Z -> Z -> Z -> outcome Z)
    (fromRgb_big : Z -> outcome (Z * Z * Z))
    (int16_other : list ascii -> result Z)
    (red green blue : R) :
  let r := int_of_float (red * 255) in
  let g := int_of_float (green * 255) in
  let b := int_of_float (blue * 255) in
  (-2147483648 <= r <= 2147483647)%Z ->
  (-2147483648 <= g <= 2147483647)%Z ->
  (-2147483648 <= b <= 2147483647)%Z ->
  ~ ((0 <= r <= 255)%Z /\ (0 <= g <= 255)%Z /\ (0 <= b <= 255)%Z) ->
  to_gradient QColor_rgb_big red green blue
  = inr ["#"; "F"; "F"; "0"; "0"; "0"; "0"; "0"; "0"]%char /\
  from_gradient fromRgb_big int16_other
    ["#"; "F"; "F"; "0"; "0"; "0"; "0"; "0"; "0"]%char
  = inr (0 / 255, 0 / 255, 0 / 255, 1%Z).
Proof.
  intros r g b Hr Hg Hb Hbad. split; [| reflexivity].
  unfold to_gradient, QColor_rgb, c_int, channel. fold r g b.
  destruct (Z.leb_spec (-2147483648) r); [| lia].
  destruct (Z.leb_spec r 2147483647); [| lia].
  destruct (Z.leb_spec (-2147483648) g); [| lia].
  destruct (Z.leb_spec g 2147483647); [| lia].
  destruct (Z.leb_spec (-2147483648) b); [| lia].
  destruct (Z.leb_spec b 2147483647); [| lia].
  cbn [andb].
  destruct ((0 <=? r)%Z && (r <=? 255)%Z && ((0 <=? g)%Z && (g <=? 255)%Z)
            && ((0 <=? b)%Z && (b <=? 255)%Z)) eqn:E; [| reflexivity].
  exfalso. apply Hbad.
  repeat (apply andb_prop in E; destruct E as [E ?]).
  repeat match goal with
         | H : (_ <=? _)%Z = true |- _ => apply Z.leb_le in H
         end.
  lia.
Qed.

Lemma int_of_float_IZR (k : Z) : int_of_float (IZR k) = k.
Proof.
  unfold int_of_float. destruct (Rle_dec 0 (IZR k)) as [H | H].
  - apply Int_part_IZR.
  - rewrite <- opp_IZR, Int_part_IZR. lia.
Qed.

Lemma to_gradient_out_of_range_is_black_witness :
  to_gradient (fun _ _ _ => inl Binding) 2 0 0
  = inr ["#"; "F"; "F"; "0"; "0"; "0"; "0"; "0"; "0"]%char.
Proof.
  assert (E2 : int_of_float (2 * 255) = 510%Z)
    by (replace (2 * 255) with (IZR 510) by lra; apply int_of_float_IZR).
  assert (E0 : int_of_float (0 * 255) = 0%Z)
    by (replace (0 * 255) with (IZR 0) by lra; apply int_of_float_IZR).
  apply (to_gradient_out_of_range_is_black (fun _ _ _ => inl Binding)
           (fun _ => inl Binding) (fun _ => Raise ValueError) 2 0 0);
    rewrite ?E2, ?E0; lia.
Defined.

(** X14. Decoding then encoding.  [from_gradient] does not look at the
    first character: with nothing after it, it raises [ValueError]; with a
    run of hexadecimal digits of value [n < 2 ^ 32] after it, in either
    case and of any length, it returns the three low bytes of [n] over 255,
    all in [[0, 1]], and 1.  [to_gradient] on these returns ['#FF'] followed
    by the six upper-case digits of the three low bytes: the alpha byte is
    replaced by FF, the rest is kept. *)
Theorem gradient_decode_encode
    (QColor_rgb_big : Z -> Z -> Z -> outcome Z)
    (fromRgb_big : Z -> outcome (Z * Z * Z))
    (int16_other : list ascii -> result Z)
    (c0 : ascii) (ds : list ascii) (n : Z) :
  ds <> [] ->
  Hex.fold 0 ds = Some n ->
  (n < 4294967296)%Z ->
  from_gradient fromRgb_big int16_other [] = inl (Builtin ValueError) /\
  from_gradient fromRgb_big int16_other [c0] = inl (Builtin ValueError) /\
  exists r g b : R,
    from_gradient fromRgb_big int16_other (c0 :: ds) = inr (r, g, b, 1%Z) /\
    r = IZR ((n / 65536) mod 256) / 255 /\
    g = IZR ((n / 256) mod 256) / 255 /\
    b = IZR (n mod 256) / 255 /\
    (0 <= r <= 1 /\ 0 <= g <= 1 /\ 0 <= b <= 1) /\
    to_gradient QColor_rgb_big r g b
    = inr ("#" :: "F" :: "F" :: Hex.fixed 6 (n mod 16777216))%char.
Proof.
  intros Hds Hf Hn.
  split; [reflexivity |]. split; [reflexivity |].
  pose proof (hex_fold_nonneg ds 0 n ltac:(lia) Hf) as Hn0.
  set (cr := ((n / 65536) mod 256)%Z).
  set (cg := ((n / 256) mod 256)%Z).
  set (cb := (n mod 256)%Z).
  assert (Hr : (0 <= cr <= 255)%Z)
    by (pose proof (Z.mod_pos_bound (n / 65536) 256 ltac:(lia)); unfold cr; lia).
  assert (Hg : (0 <= cg <= 255)%Z)
    by (pose proof (Z.mod_pos_bound (n / 256) 256 ltac:(lia)); unfold cg; lia).
  assert (Hb : (0 <= cb <= 255)%Z)
    by (pose proof (Z.mod_pos_bound n 256 ltac:(lia)); unfold cb; lia).
  assert (Hunit : forall c : Z, (0 <= c <= 255)%Z -> 0 <= IZR c / 255 <= 1).
  { intros c [Hc0 Hc1]. apply IZR_le in Hc0, Hc1. lra. }
  assert (Hback : forall c : Z,
             (0 <= c <= 255)%Z -> int_of_float (IZR c / 255 * 255) = c).
  { intros c Hc. replace (IZR c / 255 * 255) with (IZR c) by field.
    apply int_of_float_IZR. }
  exists (IZR cr / 255), (IZR cg / 255), (IZR cb / 255).
  split; [apply from_gradient_plain; assumption |].
  repeat (split; [reflexivity |]).
  split; [repeat split; apply Hunit; assumption |].
  destruct (to_gradient_channels QColor_rgb_big
              (IZR cr / 255) (IZR cg / 255) (IZR cb / 255) cr cg cb)
    as [Hto _]; try (apply Hback; assumption); try assumption.
  rewrite Hto. change (Hex.fixed 2 255) with ["F"; "F"]%char.
  cbn [app]. do 4 f_equal.
  replace (n mod 16777216)%Z
    with ((cr * 16 ^ Z.of_nat 2 + cg) * 16 ^ Z.of_nat 2 + cb)%Z.
  2:{ change (16 ^ Z.of_nat 2)%Z with 256%Z. unfold cr, cg, cb.
      Z.to_euclidean_division_equations. lia. }
  change 6%nat with (4 + 2)%nat.
  rewrite hex_fixed_app by (change (16 ^ Z.of_nat 2)%Z with 256%Z; lia).
  change 4%nat with (2 + 2)%nat.
  rewrite hex_fixed_app by (change (16 ^ Z.of_nat 2)%Z with 256%Z; lia).
  rewrite <- app_assoc. reflexivity.
Qed.

Lemma gradient_decode_encode_witness :
  exists r g b : R,
    from_gradient (fun _ => inl Binding) (fun _ => Raise ValueError)
                  ["#"; "8"; "0"; "f"; "f"; "0"; "0"; "0"; "0"]%char
    = inr (r, g, b, 1%Z) /\
    to_gradient (fun _ _ _ => inl Binding) r g b
    = inr ("#" :: "F" :: "F" :: Hex.fixed 6 (2164195328 mod 16777216))%char.
Proof.
  destruct (gradient_decode_encode (fun _ _ _ => inl Binding)
              (fun _ => inl Binding) (fun _ => Raise ValueError)
              "#"%char ["8"; "0"; "f"; "f"; "0"; "0"; "0"; "0"]%char
              2164195328)
    as [_ [_ [r [g [b [H1 [_ [_ [_ [_ H2]]]]]]]]]];
    [discriminate | reflexivity | lia |].
  exists r, g, b. split; [exact H1 | exact H2].
Defined.

(** * The gradient stops *)

(** X15. The stops [AppWindow.__init__] builds from the segment data of the
    three channels, when every channel value [y0] lies in [[0, 1]]: there
    is one stop per row up to the end of the shortest channel, its position
    is the [x] of the red row (the [x] of the green and blue rows is not
    used), and its string decodes, as in [redraw], to the three [y0]
    rounded down to multiples of 1/255. *)
Theorem initial_gradient_stops
    (QColor_rgb_big : Z -> Z -> Z -> outcome Z)
    (fromRgb_big : Z -> outcome (Z * Z * Z))
    (int16_other : list ascii -> result Z)
    (red green blue : list (R * R * R)) :
  (forall row, In row red \/ In row green \/ In row blue ->
               0 <= snd (fst row) <= 1) ->
  exists stops : list (R * list ascii),
    gradient_colors QColor_rgb_big red green blue = inr stops /\
    length stops
    = Nat.min (length red) (Nat.min (length green) (length blue)) /\
    forall (i : nat) (r g b : R * R * R),
      nth_error red i = Some r ->
      nth_error green i = Some g ->
      nth_error blue i = Some b ->
      exists code : list ascii,
        nth_error stops i = Some (fst (fst r), code) /\
        from_gradient fromRgb_big int16_other code
        = inr (quantised (snd (fst r)), quantised (snd (fst g)),
               quantised (snd (fst b)), 1%Z).
Proof.
  revert green blue.
  induction red as [| r red IH]; intros green blue Hrows.
  - exists []. split; [reflexivity |]. split; [reflexivity |].
    intros [| i] r g b Hr; discriminate.
  - destruct green as [| g green].
    { exists []. split; [reflexivity |]. split; [reflexivity |].
      intros [| i] r' g' b' _ Hg; discriminate. }
    destruct blue as [| b blue].
    { exists []. split; [reflexivity |]. split; [cbn; lia |].
      intros [| i] r' g' b' _ _ Hb; discriminate. }
    destruct (IH green blue) as [stops [Hs [Hlen Hnth]]].
    { intros row [H | [H | H]]; apply Hrows; cbn [In]; tauto. }
    destruct (encode_decode_unit QColor_rgb_big fromRgb_big int16_other
                (snd (fst r)) (snd (fst g)) (snd (fst b)))
      as [Hto Hfrom]; try (apply Hrows; cbn [In]; tauto).
    cbv zeta in Hto, Hfrom.
    eexists. split; [cbn [gradient_colors]; rewrite Hto, Hs; reflexivity |].
    split; [cbn [length]; rewrite Hlen; lia |].
    intros [| i] r' g' b'; cbn [nth_error].
    + intros [= <-] [= <-] [= <-]. eexists. split; [reflexivity | exact Hfrom].
    + apply Hnth.
Qed.

Lemma initial_gradient_stops_witness :
  exists stops : list (R * list ascii),
    gradient_colors (fun _ _ _ => inl Binding)
      [(0, 1, 1); (1, 1, 1)] [(0, 0, 0); (1 / 2, 1, 1); (1, 0, 0)] [(0, 0, 0)]
    = inr stops /\ length stops = 1%nat.
Proof.
  destruct (initial_gradient_stops (fun _ _ _ => inl Binding)
              (fun _ => inl Binding) (fun _ => Raise ValueError)
              [(0, 1, 1); (1, 1, 1)] [(0, 0, 0); (1 / 2, 1, 1); (1, 0, 0)]
              [(0, 0, 0)])
    as [stops [H [Hlen _]]].
  - intros row H. cbn [In] in H.
    repeat (destruct H as [H | H]; try contradiction;
            try (subst row; cbn [fst snd]; lra)).
  - exists stops. split; [exact H | exact Hlen].
Defined.

Section SortedStops.

Context {A : Type}.

Lemma insert_permutation (x : R * A) (l : list (R * A)) :
  Permutation (x :: l) (insert_by_position x l).
Proof.
  induction l as [| y l IH]; cbn [insert_by_position]; [reflexivity |].
  destruct (Rlt_dec (fst y) (fst x)); [| reflexivity].
  rewrite perm_swap. apply perm_skip. exact IH.
Qed.

Lemma sorted_permutation (l : list (R * A)) :
  Permutation l (sorted_by_position l).
Proof.
  induction l as [| x l IH]; [reflexivity |].
  cbn [sorted_by_position fold_right].
  rewrite <- insert_permutation. apply perm_skip. exact IH.
Qed.

Lemma insert_sorted (x : R * A) (l : list (R * A)) :
  StronglySorted position_le l ->
  StronglySorted position_le (insert_by_position x l).
Proof.
  induction 1 as [| y l Hs IH Hall]; cbn [insert_by_position].
  - constructor; constructor.
  - destruct (Rlt_dec (fst y) (fst x)) as [Hlt | Hge].
    + constructor; [exact IH |].
      rewrite <- insert_permutation. constructor; [| exact Hall].
      unfold position_le. lra.
    + constructor; [constructor; assumption |].
      constructor; [unfold position_le; lra |].
      revert Hall. apply Forall_impl. unfold position_le. intros z Hz. lra.
Qed.

Lemma sorted_is_sorted (l : list (R * A)) :
  StronglySorted position_le (sorted_by_position l).
Proof.
  induction l as [| x l IH]; [constructor |].
  cbn [sorted_by_position fold_right]. apply insert_sorted. exact IH.
Qed.

Lemma sorted_strictly (l : list (R * A)) :
  StronglySorted position_le l ->
  NoDup (map fst l) ->
  StronglySorted position_lt l.
Proof.
  induction 1 as [| y l Hs IH Hall]; intros Hnd; [constructor |].
  cbn [map] in Hnd. inversion Hnd as [| k ks Hnotin Hnd']. subst.
  constructor; [apply IH; exact Hnd' |].
  rewrite Forall_forall in *. intros z Hz.
  specialize (Hall z Hz). unfold position_le, position_lt in *.
  destruct (Req_dec_T (fst y) (fst z)) as [E | Hne]; [| lra].
  exfalso. apply Hnotin. rewrite E. apply in_map. exact Hz.
Qed.

(** Two strictly sorted lists with the same elements are the same list. *)
Lemma strictly_sorted_unique (l1 : list (R * A)) :
  forall l2 : list (R * A),
    StronglySorted position_lt l1 ->
    StronglySorted position_lt l2 ->
    Permutation l1 l2 ->
    l1 = l2.
Proof.
  induction l1 as [| a l1 IH]; intros l2 H1 H2 Hp.
  - apply Permutation_nil in Hp. subst. reflexivity.
  - destruct l2 as [| b l2];
      [apply Permutation_sym, Permutation_nil in Hp; discriminate |].
    inversion H1 as [| ? ? Hs1 Hall1]. inversion H2 as [| ? ? Hs2 Hall2].
    subst. rewrite Forall_forall in Hall1, Hall2.
    assert (Hab : a = b).
    { assert (Ha : In a (b :: l2))
        by (apply (Permutation_in _ Hp); left; reflexivity).
      assert (Hb : In b (a :: l1))
        by (apply (Permutation_in _ (Permutation_sym Hp)); left; reflexivity).
      destruct Ha as [Ha | Ha]; [symmetry; exact Ha |].
      destruct Hb as [Hb | Hb]; [exact Hb |].
      specialize (Hall1 b Hb). specialize (Hall2 a Ha).
      unfold position_lt in *. lra. }
    subst b. f_equal. apply IH; try assumption.
    apply Permutation_cons_inv with (a := a). exact Hp.
Qed.

(** With distinct positions the sorted list does not depend on the order of
    the input. *)
Lemma sorted_order_free (l1 l2 : list (R * A)) :
  Permutation l1 l2 ->
  NoDup (map fst l1) ->
  sorted_by_position l1 = sorted_by_position l2.
Proof.
  intros Hp Hnd.
  assert (Hp' : Permutation (sorted_by_position l1) (sorted_by_position l2)).
  { rewrite <- !sorted_permutation. exact Hp. }
  apply strictly_sorted_unique; [| | exact Hp'].
  - apply sorted_strictly; [apply sorted_is_sorted |].
    apply (Permutation_NoDup (l := map fst l1)); [| exact Hnd].
    apply Permutation_map, sorted_permutation.
  - apply sorted_strictly; [apply sorted_is_sorted |].
    apply (Permutation_NoDup (l := map fst l1)); [| exact Hnd].
    apply Permutation_map. rewrite <- sorted_permutation. exact Hp.
Qed.

End SortedStops.

Section DecodeStops.

Variable fromRgb_big : Z -> outcome (Z * Z * Z).
Variable int16_other : list ascii -> result Z.

Lemma decode_stops_inv (gradient : list (R * list ascii)) :
  forall stops,
    decode_stops fromRgb_big int16_other gradient = inr stops ->
    Forall (decodes fromRgb_big int16_other) gradient /\
    stops = map (decoded fromRgb_big int16_other) gradient.
Proof.
  induction gradient as [| [x y] gradient IH]; intros stops;
    cbn [decode_stops].
  - intros [= <-]. split; [constructor | reflexivity].
  - destruct (from_gradient fromRgb_big int16_other y) as [e | c] eqn:Ey;
      [discriminate |].
    destruct (decode_stops fromRgb_big int16_other gradient) as [e | l];
      [discriminate |].
    intros [= <-]. destruct (IH l eq_refl) as [Hall ->].
    split.
    + constructor; [exists c; exact Ey | exact Hall].
    + cbn [map]. f_equal. unfold decoded. cbn [fst snd].
      rewrite Ey. reflexivity.
Qed.

Lemma decode_stops_all (gradient : list (R * list ascii)) :
  Forall (decodes fromRgb_big int16_other) gradient ->
  decode_stops fromRgb_big int16_other gradient
  = inr (map (decoded fromRgb_big int16_other) gradient).
Proof.
  induction 1 as [| [x y] gradient [c Hc] Hall IH]; [reflexivity |].
  cbn [decode_stops map snd] in *. rewrite Hc, IH.
  do 2 f_equal. unfold decoded. cbn [fst snd]. rewrite Hc. reflexivity.
Qed.

End DecodeStops.

(** X16. The stops [redraw] hands to the colormap.  When every string of
    the gradient decodes, they are the decoded stops, none lost and none
    added, in order of position, smallest first; and as long as no two
    stops share a position, the editor may list them in any order: the
    result is the same.  When a string does not decode, its exception ends
    the computation. *)
Theorem colormap_stops_sorted
    (fromRgb_big : Z -> outcome (Z * Z * Z))
    (int16_other : list ascii -> result Z)
    (gradient : list (R * list ascii)) :
  (forall stops,
      decode_stops fromRgb_big int16_other gradient = inr stops ->
      exists out,
        colormap_stops fromRgb_big int16_other gradient = inr out /\
        Permutation stops out /\
        map fst stops = map fst gradient /\
        StronglySorted position_le out /\
        forall gradient',
          Permutation gradient gradient' ->
          NoDup (map fst gradient) ->
          colormap_stops fromRgb_big int16_other gradient' = inr out) /\
  (forall e,
      decode_stops fromRgb_big int16_other gradient = inl e ->
      colormap_stops fromRgb_big int16_other gradient = inl e).
Proof.
  split.
  - intros stops Hd.
    destruct (decode_stops_inv fromRgb_big int16_other gradient stops Hd)
      as [Hall Hstops].
    assert (Hpos : map fst stops = map fst gradient).
    { rewrite Hstops, map_map. apply map_ext. intros stop. reflexivity. }
    exists (sorted_by_position stops).
    split; [unfold colormap_stops; rewrite Hd; reflexivity |].
    split; [apply sorted_permutation |].
    split; [exact Hpos |].
    split; [apply sorted_is_sorted |].
    intros gradient' Hp Hnd.
    unfold colormap_stops.
    rewrite (decode_stops_all fromRgb_big int16_other gradient')
      by (apply (Permutation_Forall Hp); exact Hall).
    f_equal. symmetry. apply sorted_order_free.
    + rewrite Hstops. apply Permutation_map. exact Hp.
    + rewrite Hpos. exact Hnd.
  - intros e Hd. unfold colormap_stops. rewrite Hd. reflexivity.
Qed.

Lemma colormap_stops_sorted_witness :
  exists out,
    colormap_stops (fun _ => inl Binding) (fun _ => Raise ValueError)
      [(1, ["#"; "F"; "F"]%char); (0, ["#"; "0"]%char)] = inr out /\
    StronglySorted position_le out.
Proof.
  destruct (colormap_stops_sorted (fun _ => inl Binding)
              (fun _ => Raise ValueError)
              [(1, ["#"; "F"; "F"]%char); (0, ["#"; "0"]%char)])
    as [H _].
  destruct (H _ eq_refl) as [out [Ho [_ [_ [Hs _]]]]].
  exists out. split; [exact Ho | exact Hs].
Defined.

(** * The drawing and the panel *)

Section Fresh.

Context {Color Gradient : Type}.
Variable from_list : Gradient -> result (R -> Color).
Hypothesis from_list_total : forall g, exists cmap, from_list g = Ok cmap.

Lemma redraw_succeeds (s : AppWindow Color Gradient) :
  panel_ok (_controls s) -> fst (redraw from_list s) = Ok tt.
Proof.
  intros [_ [_ [_ [Hb [Hr Hp]]]]].
  rewrite redraw_unfold.
  destruct (from_list_total (_gradient s)) as [cmap ->]. cbv zeta.
  fold (get_values (_controls s)) in Hb, Hr, Hp.
  destruct (pattern_outcome (num_bumps (get_values (_controls s)) * 2)
              (num_rings (get_values (_controls s)))
              (rot_rings (get_values (_controls s)))
              (rot_offset (get_values (_controls s)))
              (rad_offset (get_values (_controls s)))
              (bump_size (get_values (_controls s))) cmap s)
    as [_ [_ [_ [_ Hok]]]].
  apply Hok; lia.
Qed.

(** After a [redraw] that returned, a second one changes nothing. *)
Lemma redraw_settles (s : AppWindow Color Gradient) :
  panel_ok (_controls s) ->
  redraw from_list (snd (redraw from_list s))
  = (Ok tt, snd (redraw from_list s)).
Proof.
  intros Hok. pose proof (redraw_succeeds s Hok) as Hs.
  destruct (redraw_frame from_list (get_values (_controls s)) (_gradient s))
    as [[e H] | [r [lines H]]].
  - rewrite (H s eq_refl eq_refl) in Hs. discriminate.
  - rewrite (H s eq_refl eq_refl) in *. cbn [fst snd] in *. subst r.
    rewrite (H (mkApp (_controls s) (_gradient s) lines) eq_refl eq_refl).
    reflexivity.
Qed.

Lemma setValue_same (v : Z) (w : Qt.QSpinBox) :
  Qt.value (Qt.setValue v w) = Qt.value w -> Qt.setValue v w = w.
Proof.
  destruct w as [lo hi val]. unfold Qt.setValue.
  cbn [Qt.minimum Qt.maximum Qt.value]. intros E. f_equal. exact E.
Qed.

Lemma setValueD_same (v : R) (w : Qt.QDoubleSpinBox) :
  Qt.dvalue (Qt.setValueD v w) = Qt.dvalue w -> Qt.setValueD v w = w.
Proof.
  destruct w as [lo hi val]. unfold Qt.setValueD.
  cbn [Qt.dminimum Qt.dmaximum Qt.dvalue]. intros E. f_equal. exact E.
Qed.

(** An edit that leaves the widget's value as it was leaves the window as
    it was; any other edit ends in a [redraw]. *)
Lemma edit_spin_cases (w : ControlPanel -> Qt.QSpinBox)
    (store : Qt.QSpinBox -> ControlPanel -> ControlPanel) (v : Z)
    (s : AppWindow Color Gradient) :
  (forall c, store (w c) c = c) ->
  snd (edit_spin Color Gradient from_list w store v s) = s \/
  exists s1, _controls s1
             = update (store (Qt.setValue v (w (_controls s))) (_controls s))
             /\ snd (edit_spin Color Gradient from_list w store v s)
                = snd (redraw from_list s1).
Proof.
  intros Hlens. unfold edit_spin. cbv zeta.
  destruct (Z.eqb_spec (Qt.value (Qt.setValue v (w (_controls s))))
                       (Qt.value (w (_controls s)))) as [E | _].
  - left. rewrite (setValue_same _ _ E), Hlens.
    destruct s; reflexivity.
  - right. eexists. split; [| reflexivity]. reflexivity.
Qed.

Lemma edit_dspin_cases (w : ControlPanel -> Qt.QDoubleSpinBox)
    (store : Qt.QDoubleSpinBox -> ControlPanel -> ControlPanel) (v : R)
    (s : AppWindow Color Gradient) :
  (forall c, store (w c) c = c) ->
  snd (edit_dspin Color Gradient from_list w store v s) = s \/
  exists s1, _controls s1
             = update (store (Qt.setValueD v (w (_controls s))) (_controls s))
             /\ snd (edit_dspin Color Gradient from_list w store v s)
                = snd (redraw from_list s1).
Proof.
  intros Hlens. unfold edit_dspin. cbv zeta.
  destruct (Req_dec_T (Qt.dvalue (Qt.setValueD v (w (_controls s))))
                      (Qt.dvalue (w (_controls s)))) as [E | _].
  - left. rewrite (setValueD_same _ _ E), Hlens.
    destruct s; reflexivity.
  - right. eexists. split; [| reflexivity]. reflexivity.
Qed.

(** Every window the application reaches is one [redraw] has just drawn. *)
Lemma reachable_settled (s : AppWindow Color Gradient) :
  reachable from_list s -> redraw from_list s = (Ok tt, s).
Proof.
  induction 1 as [g0 | e s Hs IH].
  - unfold AppWindow_init. apply redraw_settles, panel_ok_init.
  - pose proof (reachable_panel_ok from_list s Hs) as Hok.
    assert (Hspin : forall w store v,
               (forall c, store (w c) c = c) ->
               panel_ok (update (store (Qt.setValue v (w (_controls s)))
                                       (_controls s))) ->
               redraw from_list
                 (snd (edit_spin Color Gradient from_list w store v s))
               = (Ok tt, snd (edit_spin Color Gradient from_list w store v s))).
    { intros w store v Hlens Hup.
      destruct (edit_spin_cases w store v s Hlens) as [-> | [s1 [Hc ->]]];
        [exact IH |].
      apply redraw_settles. rewrite Hc. exact Hup. }
    assert (Hdspin : forall w store v,
               (forall c, store (w c) c = c) ->
               panel_ok (update (store (Qt.setValueD v (w (_controls s)))
                                       (_controls s))) ->
               redraw from_list
                 (snd (edit_dspin Color Gradient from_list w store v s))
               = (Ok tt, snd (edit_dspin Color Gradient from_list w store v s))).
    { intros w store v Hlens Hup.
      destruct (edit_dspin_cases w store v s Hlens) as [-> | [s1 [Hc ->]]];
        [exact IH |].
      apply redraw_settles. rewrite Hc. exact Hup. }
    pose proof (handle_panel_ok from_list) as Hkeep.
    destruct e as [v | v | v | v | v | v | g |]; cbn [handle].
    1-3: apply Hspin; [intros []; reflexivity |];
      destruct (_controls s) as [vals nb nr rr ro ra bs];
      revert Hok; unfold panel_ok, update, store_num_bumps, store_num_rings,
        store_rot_rings, Qt.setValue, Qt.bound;
      cbn [_vals _num_bumps _num_rings _rot_rings _rot_offset _rad_offset
           _bump_size num_bumps num_rings rot_rings
           Qt.minimum Qt.maximum Qt.value]; lia.
    1-3: apply Hdspin; [intros []; reflexivity |];
      destruct (_controls s) as [vals nb nr rr ro ra bs];
      revert Hok; unfold panel_ok, update, store_rot_offset, store_rad_offset,
        store_bump_size;
      cbn [_vals _num_bumps _num_rings _rot_rings _rot_offset _rad_offset
           _bump_size num_bumps num_rings rot_rings
           Qt.minimum Qt.maximum Qt.value]; lia.
    + apply redraw_settles. exact Hok.
    + exact IH.
Qed.

End Fresh.

(** X17. The drawing is never stale.  If the colormap can be built from
    every gradient, then in every window the running application reaches
    [redraw] returns and changes nothing: the axes already hold exactly the
    lines [redraw] draws from the stored values and the gradient, and there
    are [num_rings] of them. *)
Theorem gui_drawing_is_current {Color Gradient : Type}
    (from_list : Gradient -> result (R -> Color))
    (s : AppWindow Color Gradient) :
  (forall g, exists cmap, from_list g = Ok cmap) ->
  reachable from_list s ->
  redraw from_list s = (Ok tt, s) /\
  length (ax s) = Z.to_nat (num_rings (get_values (_controls s))).
Proof.
  intros Htotal Hreach.
  pose proof (reachable_settled from_list Htotal s Hreach) as Hfix.
  split; [exact Hfix |].
  destruct (reachable_panel_ok from_list s Hreach)
    as [_ [_ [_ [Hb [Hr Hp]]]]].
  fold (get_values (_controls s)) in Hb, Hr, Hp.
  destruct (Htotal (_gradient s)) as [cmap Hc].
  rewrite redraw_unfold, Hc in Hfix. cbv zeta in Hfix.
  destruct (pattern_outcome (num_bumps (get_values (_controls s)) * 2)
              (num_rings (get_values (_controls s)))
              (rot_rings (get_values (_controls s)))
              (rot_offset (get_values (_controls s)))
              (rad_offset (get_values (_controls s)))
              (bump_size (get_values (_controls s))) cmap s)
    as [_ [_ [_ [_ Hok]]]].
  destruct Hok as [_ [_ [_ Hlen]]]; try lia.
  rewrite Hfix in Hlen. exact Hlen.
Qed.

Lemma gui_drawing_is_current_witness :
  let from_list := fun _ : unit => Ok (fun _ : R => tt) in
  let s := snd (handle from_list (EditNumRings unit 3)
                  (snd (AppWindow_init from_list tt))) in
  redraw from_list s = (Ok tt, s).
Proof.
  intros from_list s.
  apply (gui_drawing_is_current from_list s).
  - intros g. eexists. reflexivity.
  - apply reach_event, reach_init.
Defined.

Lemma redraw_returns_iff_witness :
  fst (redraw (fun _ : unit => Ok (fun _ : R => tt))
              (mkApp (ControlPanel_init initial_vals) tt [])) = Ok tt.
Proof.
  apply (redraw_returns_iff (fun _ : unit => Ok (fun _ : R => tt))
           (mkApp (ControlPanel_init initial_vals) tt [])).
  split; [eexists; reflexivity |].
  left. cbn. lia.
Defined.

Lemma redraw_all_or_nothing_witness :
  let s := mkApp (ControlPanel_init (mkVals 4 2 1 0 (1 / 10) (1 / 10))) tt
                 [(([1], [1]), tt)] in
  ax (snd (redraw (fun _ : unit => Ok (fun _ : R => tt)) s)) = ax s \/
  ax (snd (redraw (fun _ : unit => Ok (fun _ : R => tt)) s)) = [].
Proof.
  intros s.
  destruct (redraw_all_or_nothing (fun _ : unit => Ok (fun _ : R => tt)) s)
    as [H _].
  apply (H ZeroDivisionError).
  destruct (pattern_outcome (4 * 2) 2 1 0 (1 / 10) (1 / 10)
              (fun _ : R => tt) s) as [_ [_ [Hz _]]].
  rewrite redraw_unfold. cbv zeta. cbn [_gradient].
  change (fst (pattern (4 * 2) 2 (1 * 2) 0 (1 / 10) (1 / 10)
                 (fun _ : R => tt) s) = Raise ZeroDivisionError).
  rewrite Hz by lia. reflexivity.
Defined.

(** * The panel, the doubling and the rings *)

Section Doubling.

Context {Color Gradient : Type}.
Variable from_list : Gradient -> result (R -> Color).

(** What [redraw] draws in a window the application can reach. *)
Lemma reachable_redraw_rings (s : AppWindow Color Gradient) :
  reachable from_list s ->
  let c := _controls s in
  let vals := get_values c in
  (Qt.minimum (_num_bumps c) = 2 /\ Qt.minimum (_num_rings c) = 1 /\
   Qt.minimum (_rot_rings c) = 2)%Z /\
  (num_bumps vals = Qt.value (_num_bumps c) /\
   num_rings vals = Qt.value (_num_rings c) /\
   rot_rings vals = Qt.value (_rot_rings c)) /\
  ((2 <= num_bumps vals)%Z /\ (1 <= num_rings vals)%Z /\
   (2 <= rot_rings vals)%Z) /\
  (Z.even (num_bumps vals * 2) = true /\
   Z.even (rot_rings vals * 2) = true /\ (4 <= rot_rings vals * 2)%Z) /\
  (forall bidx : Z,
      Py.mod_int bidx (rot_rings vals * 2 - 2) <> Raise ZeroDivisionError) /\
  forall cmap : R -> Color,
    from_list (_gradient s) = Ok cmap ->
    exists (offsets : list R) (rings : list (Line Color)),
      redraw from_list s = (Ok tt, mkApp (_controls s) (_gradient s) rings) /\
      length rings = Z.to_nat (num_rings vals) /\
      offsets_schedule (rot_rings vals * 2) (rot_offset vals) = Ok offsets /\
      length offsets = Z.to_nat (rot_rings vals * 2 - 2) /\
      (2 <= length offsets)%nat /\
      forall i : nat,
        (i < Z.to_nat (num_rings vals))%nat ->
        exists (j : Z) (offset : R) (xy : list R * list R),
          Py.mod_int (Z.of_nat i) (Z.of_nat (length offsets)) = Ok j /\
          Py.getitem offsets j = Ok offset /\
          squircle (1 + rad_offset vals * INR i) (bump_size vals) offset
                   (num_bumps vals * 2) = Ok xy /\
          nth_error rings i
          = Some (xy, cmap (INR i / IZR (num_rings vals))) /\
          vertex xy 0
          = Some (circle (1 + rad_offset vals * INR i - bump_size vals / 2)
                         (ring_angle offset (num_bumps vals * 2) 0)) /\
          vertex xy (Z.to_nat (num_bumps vals * 2) - 1)
          = Some (circle (1 + rad_offset vals * INR i + bump_size vals / 2)
                         (ring_angle offset (num_bumps vals * 2)
                            (Z.to_nat (num_bumps vals * 2) - 1))) /\
          vertex xy (Z.to_nat (num_bumps vals * 2)) = vertex xy 0.
Proof.
  intros Hreach c vals.
  destruct (reachable_panel_synced from_list s Hreach)
    as [[Hmb _] [[Hmr _] [[Hmp _] [_ [_ [_ [Hshown Hrange]]]]]]].
  fold c in Hmb, Hmr, Hmp, Hshown, Hrange.
  destruct Hrange as [Hb [Hr [Hp _]]].
  fold (get_values c) in Hb, Hr, Hp. fold vals in Hb, Hr, Hp.
  split; [repeat split; assumption |].
  split.
  { unfold vals, get_values. rewrite Hshown. repeat split; reflexivity. }
  split; [repeat split; lia |].
  assert (Heven : Z.even (rot_rings vals * 2) = true)
    by (rewrite Z.even_mul; apply orb_true_r).
  assert (Hper : (4 <= rot_rings vals * 2)%Z) by lia.
  assert (Hseg : (1 <= num_bumps vals * 2)%Z) by lia.
  assert (Hmod : (0 < rot_rings vals * 2 - 2)%Z) by lia.
  split.
  { split; [rewrite Z.even_mul; apply orb_true_r |].
    split; assumption. }
  split.
  { intros bidx. unfold Py.mod_int.
    destruct (Z.eqb_spec (rot_rings vals * 2 - 2) 0); [lia | discriminate]. }
  intros cmap Hcmap.
  pose proof (offsets_schedule_closed (rot_rings vals * 2) (rot_offset vals)
                Heven Hper) as Hc. cbv zeta in Hc.
  destruct (schedule_nth (rot_rings vals * 2) (rot_offset vals) Heven Hper
              _ Hc) as [Hlen _].
  set (offsets := _ ++ _) in *.
  exists offsets. eexists.
  split.
  { rewrite redraw_unfold, Hcmap. cbv zeta. fold c. fold vals.
    apply (pattern_lines (num_bumps vals * 2) (num_rings vals)
             (rot_rings vals * 2) (rot_offset vals) (rad_offset vals)
             (bump_size vals) cmap offsets Hseg Hmod Hlen s Hc). }
  split; [rewrite length_map, length_seq; reflexivity |].
  split; [exact Hc |].
  split; [exact Hlen |].
  split; [rewrite Hlen; lia |].
  intros i Hi.
  assert (Hlt : (i mod length offsets < length offsets)%nat)
    by (apply Nat.mod_upper_bound; lia).
  destruct (ring_line_shape (num_bumps vals * 2) (num_rings vals)
              (rot_rings vals * 2) (rad_offset vals) (bump_size vals) cmap
              offsets Hseg Hmod Hlen i) as [Hsq [_ [_ [Hv Hclose]]]].
  exists (Z.of_nat (i mod length offsets)),
         (nth (i mod length offsets) offsets 0).
  eexists.
  split.
  { unfold Py.mod_int.
    destruct (Z.eqb_spec (Z.of_nat (length offsets)) 0); [lia |].
    rewrite Nat2Z.inj_mod. reflexivity. }
  split; [apply getitem_nat; exact Hlt |].
  split; [exact Hsq |].
  split.
  { rewrite nth_error_map, nth_error_seq.
    destruct (Nat.ltb_spec i (Z.to_nat (num_rings vals))); [| lia].
    reflexivity. }
  split; [rewrite Hv by lia; reflexivity |].
  split; [| exact Hclose].
  rewrite Hv by lia. unfold bump_radius.
  rewrite last_index_odd by lia. reflexivity.
Qed.

End Doubling.

(** C10, as stated, fails in its remark on the closure.  In the window the
    application starts with (20 bumps, so 40 segments; ring 0 has inner
    radius 0.95 and outer radius 1.05), the final segment of the first ring
    drawn starts at point 39, which is on the outer circle and not on the
    inner one: the segment is outer-to-inner, not inner-to-inner. *)
Lemma final_segment_counterexample :
  exists (rings : list (Line unit)) (xy : list R * list R) (x y : R),
    reachable (fun _ : unit => Ok (fun _ : R => tt))
              (snd (AppWindow_init (fun _ : unit => Ok (fun _ : R => tt)) tt))
    /\
    ax (snd (AppWindow_init (fun _ : unit => Ok (fun _ : R => tt)) tt))
    = rings /\
    nth_error rings 0 = Some (xy, tt) /\
    length (fst xy) = 41%nat /\
    vertex xy 39 = Some (x, y) /\
    x ^ 2 + y ^ 2 = (1 + 1 / 10 / 2) ^ 2 /\
    x ^ 2 + y ^ 2 <> (1 - 1 / 10 / 2) ^ 2.
Proof.
  set (from_list := fun _ : unit => Ok (fun _ : R => tt)).
  set (s0 := mkApp (ControlPanel_init initial_vals) tt []
             : AppWindow unit unit).
  assert (Heven : Z.even (10 * 2) = true) by reflexivity.
  assert (Hper : (4 <= 10 * 2)%Z) by lia.
  assert (Hseg : (1 <= 20 * 2)%Z) by lia.
  assert (Hmod : (0 < 10 * 2 - 2)%Z) by lia.
  pose proof (offsets_schedule_closed (10 * 2) (1 / 10) Heven Hper) as Hc.
  cbv zeta in Hc.
  destruct (schedule_nth (10 * 2) (1 / 10) Heven Hper _ Hc) as [Hlen _].
  set (offsets := _ ++ _) in *.
  pose proof (pattern_lines (20 * 2) 40 (10 * 2) (1 / 10) (5 / 100) (1 / 10)
                (fun _ : R => tt) offsets Hseg Hmod Hlen s0 Hc) as Hpat.
  destruct (ring_line_shape (20 * 2) 40 (10 * 2) (5 / 100) (1 / 10)
              (fun _ : R => tt) offsets Hseg Hmod Hlen 0)
    as [_ [Hlx [_ [Hv _]]]].
  specialize (Hv 39%nat ltac:(cbn; lia)).
  assert (Hinit : AppWindow_init from_list tt
                  = pattern (20 * 2) 40 (10 * 2) (1 / 10) (5 / 100) (1 / 10)
                            (fun _ : R => tt) s0) by reflexivity.
  set (line0 := ring_line (20 * 2) 40 (5 / 100) (1 / 10) offsets
                          (fun _ : R => tt) 0) in *.
  set (p := circle (bump_radius (1 + 5 / 100 * INR 0) (1 / 10) 39)
                   (ring_angle (nth (0 mod length offsets) offsets 0)
                               (20 * 2) 39)) in *.
  pose proof (circle_on_radius (bump_radius (1 + 5 / 100 * INR 0) (1 / 10) 39)
                (ring_angle (nth (0 mod length offsets) offsets 0)
                            (20 * 2) 39)) as Hon.
  fold p in Hon.
  change (bump_radius (1 + 5 / 100 * INR 0) (1 / 10) 39)
    with (1 + 5 / 100 * 0 + 1 / 10 / 2) in Hon.
  eexists. exists (fst line0), (fst p), (snd p).
  split; [apply reach_init |].
  split; [fold from_list; rewrite Hinit, Hpat; reflexivity |].
  split.
  { change (Z.to_nat 40) with 40%nat. cbn [seq map nth_error].
    fold line0. destruct line0 as [xy0 []]. reflexivity. }
  split; [exact Hlx |].
  split; [rewrite Hv; destruct p; reflexivity |].
  split; [rewrite Hon; ring |].
  rewrite Hon. intros E. nra.
Qed.

(** C10, amended.  In every window the running application can reach, the
    integer widgets have their minimums (2, 1, 2) and the stored values are
    the ones they show, so [num_bumps >= 2], [num_rings >= 1] and
    [rot_rings >= 2].  [redraw] doubles two of them: what it draws are
    [num_rings] rings of [num_bumps * 2] segments (an even count) with
    offsets taken from the schedule of period [rot_rings * 2] (even, at
    least 4), which has [rot_rings * 2 - 2 >= 2] entries; the index
    expression never takes a modulus by zero and [redraw] raises nothing
    once the colormap is built.  Because the count is even, the final
    segment of every ring runs from its last computed point, on the outer
    circle, to the closing copy of its first point, on the inner circle.
    None of this comes from a check in [redraw]. *)
Theorem gui_period_never_degenerate {Color Gradient : Type}
    (from_list : Gradient -> result (R -> Color))
    (s : AppWindow Color Gradient) :
  reachable from_list s ->
  let c := _controls s in
  let vals := get_values c in
  (Qt.minimum (_num_bumps c) = 2 /\ Qt.minimum (_num_rings c) = 1 /\
   Qt.minimum (_rot_rings c) = 2)%Z /\
  (num_bumps vals = Qt.value (_num_bumps c) /\
   num_rings vals = Qt.value (_num_rings c) /\
   rot_rings vals = Qt.value (_rot_rings c)) /\
  ((2 <= num_bumps vals)%Z /\ (1 <= num_rings vals)%Z /\
   (2 <= rot_rings vals)%Z) /\
  (Z.even (num_bumps vals * 2) = true /\
   Z.even (rot_rings vals * 2) = true /\ (4 <= rot_rings vals * 2)%Z) /\
  (forall bidx : Z,
      Py.mod_int bidx (rot_rings vals * 2 - 2) <> Raise ZeroDivisionError) /\
  forall cmap : R -> Color,
    from_list (_gradient s) = Ok cmap ->
    exists (offsets : list R) (rings : list (Line Color)),
      redraw from_list s = (Ok tt, mkApp (_controls s) (_gradient s) rings) /\
      length rings = Z.to_nat (num_rings vals) /\
      offsets_schedule (rot_rings vals * 2) (rot_offset vals) = Ok offsets /\
      length offsets = Z.to_nat (rot_rings vals * 2 - 2) /\
      (2 <= length offsets)%nat /\
      forall i : nat,
        (i < Z.to_nat (num_rings vals))%nat ->
        exists (j : Z) (offset : R) (xy : list R * list R),
          Py.mod_int (Z.of_nat i) (Z.of_nat (length offsets)) = Ok j /\
          Py.getitem offsets j = Ok offset /\
          squircle (1 + rad_offset vals * INR i) (bump_size vals) offset
                   (num_bumps vals * 2) = Ok xy /\
          nth_error rings i
          = Some (xy, cmap (INR i / IZR (num_rings vals))) /\
          vertex xy 0
          = Some (circle (1 + rad_offset vals * INR i - bump_size vals / 2)
                         (ring_angle offset (num_bumps vals * 2) 0)) /\
          vertex xy (Z.to_nat (num_bumps vals * 2) - 1)
          = Some (circle (1 + rad_offset vals * INR i + bump_size vals / 2)
                         (ring_angle offset (num_bumps vals * 2)
                            (Z.to_nat (num_bumps vals * 2) - 1))) /\
          vertex xy (Z.to_nat (num_bumps vals * 2)) = vertex xy 0.
Proof. apply reachable_redraw_rings. Qed.

Lemma gui_period_never_degenerate_witness :
  let from_list := fun _ : unit => Ok (fun _ : R => tt) in
  let s := snd (handle from_list (EditRotRings unit 1)
                  (snd (AppWindow_init from_list tt))) in
  reachable from_list s /\
  (4 <= rot_rings (get_values (_controls s)) * 2)%Z /\
  exists rings : list (Line unit),
    redraw from_list s = (Ok tt, mkApp (_controls s) (_gradient s) rings) /\
    length rings = Z.to_nat (num_rings (get_values (_controls s))).
Proof.
  intros from_list s.
  assert (Hs : reachable from_list s)
    by (apply reach_event, reach_init).
  split; [exact Hs |].
  destruct (gui_period_never_degenerate from_list s Hs)
    as [_ [_ [_ [[_ [_ H]] [_ Hdraw]]]]].
  split; [exact H |].
  destruct (Hdraw (fun _ : R => tt) eq_refl)
    as [offsets [rings [Hr [Hlen _]]]].
  exists rings. split; [exact Hr | exact Hlen].
Defined.
